(** * Verification of internal/build/util.go

    A shallow embedding of the build helpers of [internal/build/util.go]
    (command runner, version reader, git runner, template renderer, file
    copier and package-pattern expander) together with the parts of the Go
    standard library they call, and the properties proved about them.

    Go strings are byte sequences: they are modelled by [string], whose
    characters are the 8-bit values of [ascii].  Integers of the library
    code (runes, byte values, flag words, permissions) are modelled by [Z]. *)

From Stdlib Require Import ZArith Ascii String List Bool Lia.
From stdpp Require Import base gmap strings list fin_maps.

Local Open Scope Z_scope.

(** ** Byte strings *)

Module Str.

(** The numeric value of a byte of a string, [s[i]] in Go. *)
Definition byte_val (c : ascii) : Z := Z.of_N (N_of_ascii c).

(** [len(s)] *)
Definition len (s : string) : Z := Z.of_nat (String.length s).

(** [s[n:]] and [s[:n]] for an index within the string. *)
Fixpoint drop (n : nat) (s : string) : string :=
  match n, s with
  | O, _ => s
  | S _, EmptyString => EmptyString
  | S n', String _ s' => drop n' s'
  end.

Fixpoint take (n : nat) (s : string) : string :=
  match n, s with
  | O, _ => EmptyString
  | S _, EmptyString => EmptyString
  | S n', String c s' => String c (take n' s')
  end.

(** [s[i:j]] with Go's integer indices. *)
Definition slice (s : string) (i j : Z) : string :=
  take (Z.to_nat (j - i)) (drop (Z.to_nat i) s).

(** [s[i]] as a number; the callers below only index inside the string. *)
Definition at_ (s : string) (i : Z) : Z :=
  match String.get (Z.to_nat i) s with
  | Some c => byte_val c
  | None => 0
  end.

(** The line feed, Go's ["\n"]. *)
Definition LF : string := String (ascii_of_nat 10) EmptyString.

End Str.

(** ** unicode/utf8 and unicode *)

Module utf8.

Definition RuneError : Z := 0xFFFD.
Definition RuneSelf : Z := 0x80.
Definition UTFMax : Z := 4.

Definition locb : Z := 0x80.
Definition hicb : Z := 0xBF.
Definition maskx : Z := 0x3F.
Definition mask2 : Z := 0x1F.
Definition mask3 : Z := 0x0F.
Definition mask4 : Z := 0x07.

(** What the table [first] of the package records for a first byte: an
    ASCII byte, an invalid first byte, or the lead byte of a sequence of
    [size] bytes whose second byte must lie in [lo..hi] (the table
    [acceptRanges]). *)
Inductive first_info : Type :=
  | ASCII
  | Invalid
  | Lead (size : nat) (lo hi : Z).

Definition first (b : Z) : first_info :=
  if b <? 0x80 then ASCII
  else if b <? 0xC2 then Invalid
  else if b <? 0xE0 then Lead 2 locb hicb
  else if b =? 0xE0 then Lead 3 0xA0 hicb
  else if b <? 0xED then Lead 3 locb hicb
  else if b =? 0xED then Lead 3 locb 0x9F
  else if b <? 0xF0 then Lead 3 locb hicb
  else if b =? 0xF0 then Lead 4 0x90 hicb
  else if b <? 0xF4 then Lead 4 locb hicb
  else if b =? 0xF4 then Lead 4 locb 0x8F
  else Invalid.

Definition out_of (lo hi b : Z) : bool := (b <? lo) || (hi <? b).

(** [utf8.DecodeRuneInString]: the first rune of [s] and its width in
    bytes; [(RuneError, 0)] on the empty string and [(RuneError, 1)] on an
    encoding that is invalid or cut short. *)
Definition DecodeRuneInString (s : string) : Z * nat :=
  match s with
  | EmptyString => (RuneError, 0%nat)
  | String c0 t0 =>
    let s0 := Str.byte_val c0 in
    match first s0 with
    | ASCII => (s0, 1%nat)
    | Invalid => (RuneError, 1%nat)
    | Lead sz lo hi =>
      if (String.length s <? sz)%nat then (RuneError, 1%nat) else
      match t0 with
      | EmptyString => (RuneError, 1%nat)
      | String c1 t1 =>
        let s1 := Str.byte_val c1 in
        if out_of lo hi s1 then (RuneError, 1%nat)
        else if (sz <=? 2)%nat then
          (Z.lor (Z.shiftl (Z.land s0 mask2) 6) (Z.land s1 maskx), 2%nat)
        else
        match t1 with
        | EmptyString => (RuneError, 1%nat)
        | String c2 t2 =>
          let s2 := Str.byte_val c2 in
          if out_of locb hicb s2 then (RuneError, 1%nat)
          else if (sz <=? 3)%nat then
            (Z.lor (Z.lor (Z.shiftl (Z.land s0 mask3) 12)
                          (Z.shiftl (Z.land s1 maskx) 6))
                   (Z.land s2 maskx), 3%nat)
          else
          match t2 with
          | EmptyString => (RuneError, 1%nat)
          | String c3 _ =>
            let s3 := Str.byte_val c3 in
            if out_of locb hicb s3 then (RuneError, 1%nat)
            else
              (Z.lor (Z.lor (Z.lor (Z.shiftl (Z.land s0 mask4) 18)
                                   (Z.shiftl (Z.land s1 maskx) 12))
                            (Z.shiftl (Z.land s2 maskx) 6))
                     (Z.land s3 maskx), 4%nat)
          end
        end
      end
    end
  end.

(** [utf8.RuneStart]: the byte is not a continuation byte. *)
Definition RuneStart (b : Z) : bool := negb (Z.land b 0xC0 =? 0x80).

(** The loop [for start--; start >= lim; start-- { if RuneStart(s[start])
    { break } }] of [DecodeLastRuneInString], entered after [start--]; it
    runs at most [UTFMax - 1] times, [n] bounds the iterations. *)
Fixpoint back_to_start (s : string) (lim : Z) (n : nat) (start : Z) : Z :=
  match n with
  | O => start
  | S n' =>
    if start <? lim then start
    else if RuneStart (Str.at_ s start) then start
    else back_to_start s lim n' (start - 1)
  end.

(** [utf8.DecodeLastRuneInString]: the last rune of [s] and its width. *)
Definition DecodeLastRuneInString (s : string) : Z * nat :=
  let end_ := Str.len s in
  if end_ =? 0 then (RuneError, 0%nat) else
  let start := end_ - 1 in
  let r := Str.at_ s start in
  if r <? RuneSelf then (r, 1%nat) else
  let lim := if end_ - UTFMax <? 0 then 0 else end_ - UTFMax in
  let start := back_to_start s lim (Z.to_nat UTFMax) (start - 1) in
  let start := if start <? 0 then 0 else start in
  let '(r, size) := DecodeRuneInString (Str.slice s start end_) in
  if negb (start + Z.of_nat size =? end_) then (RuneError, 1%nat)
  else (r, size).

End utf8.

Module unicode.

Definition MaxLatin1 : Z := 0xFF.

(** The ranges of the table [unicode.White_Space] above Latin-1. *)
Definition White_Space_excluding_Latin (r : Z) : bool :=
  (r =? 0x1680)
  || ((0x2000 <=? r) && (r <=? 0x200A))
  || ((0x2028 <=? r) && (r <=? 0x2029))
  || (r =? 0x202F)
  || (r =? 0x205F)
  || (r =? 0x3000).

(** [unicode.IsSpace]: tab, line feed, vertical tab, form feed, carriage
    return, space, U+0085 and U+00A0 in Latin-1, the table above it. *)
Definition IsSpace (r : Z) : bool :=
  if (0 <=? r) && (r <=? MaxLatin1) then
    (r =? 0x09) || (r =? 0x0A) || (r =? 0x0B) || (r =? 0x0C)
    || (r =? 0x0D) || (r =? 0x20) || (r =? 0x85) || (r =? 0xA0)
  else White_Space_excluding_Latin r.

End unicode.

(** ** strings (and bytes, whose trimming is the same on the same bytes) *)

Module strings.

(** [strings.HasPrefix] *)
Fixpoint HasPrefix (s prefix : string) {struct prefix} : bool :=
  match prefix, s with
  | EmptyString, _ => true
  | String _ _, EmptyString => false
  | String p prefix', String c s' =>
    if Ascii.eqb c p then HasPrefix s' prefix' else false
  end.

(** [strings.Contains]: [substr] occurs in [s] at some index. *)
Fixpoint Contains (s substr : string) : bool :=
  HasPrefix s substr
  || match s with
     | EmptyString => false
     | String _ s' => Contains s' substr
     end.

(** [strings.Join] *)
Fixpoint Join (elems : list string) (sep : string) : string :=
  match elems with
  | [] => EmptyString
  | [x] => x
  | x :: rest => x +:+ sep +:+ Join rest sep
  end.

(** The fields of [s] between the occurrences of a non-empty [sep], found
    from the left and not overlapping; [skip] counts the bytes of an
    occurrence of [sep] still to be passed over. *)
Fixpoint split_from (sep : string) (skip : nat) (s : string) : list string :=
  match s with
  | EmptyString => [EmptyString]
  | String c s' =>
    match skip with
    | S k => split_from sep k s'
    | O =>
      if HasPrefix s sep
      then EmptyString :: split_from sep (String.length sep - 1) s'
      else match split_from sep 0 s' with
           | [] => [String c EmptyString]
           | field :: fields => String c field :: fields
           end
    end
  end.

(** [strings.Split] for a non-empty separator, the only kind this program
    passes.  (On an empty separator Go splits after each UTF-8 sequence;
    that case is outside this model, which then returns [s] unsplit.) *)
Definition Split (s sep : string) : list string :=
  match sep with
  | EmptyString => [s]
  | String _ _ => split_from sep 0 s
  end.

(** [strings.TrimLeftFunc]: drop leading runes while [f] holds.  Every
    step drops at least one byte, so [String.length s] steps suffice. *)
Fixpoint trim_left (f : Z → bool) (steps : nat) (s : string) : string :=
  match steps with
  | O => s
  | S k =>
    match s with
    | EmptyString => s
    | String _ _ =>
      let '(r, size) := utf8.DecodeRuneInString s in
      if f r then trim_left f k (Str.drop size s) else s
    end
  end.

Definition TrimLeftFunc (s : string) (f : Z → bool) : string :=
  trim_left f (String.length s) s.

(** [strings.TrimRightFunc]: drop trailing runes while [f] holds. *)
Fixpoint trim_right (f : Z → bool) (steps : nat) (s : string) : string :=
  match steps with
  | O => s
  | S k =>
    match s with
    | EmptyString => s
    | String _ _ =>
      let '(r, size) := utf8.DecodeLastRuneInString s in
      if f r then trim_right f k (Str.take (String.length s - size) s) else s
    end
  end.

Definition TrimRightFunc (s : string) (f : Z → bool) : string :=
  trim_right f (String.length s) s.

(** [strings.TrimFunc] *)
Definition TrimFunc (s : string) (f : Z → bool) : string :=
  TrimRightFunc (TrimLeftFunc s f) f.

(** [strings.TrimSpace] (and [bytes.TrimSpace]): all leading and trailing
    white space removed, as defined by Unicode. *)
Definition TrimSpace (s : string) : string := TrimFunc s unicode.IsSpace.

End strings.

(** ** Errors, the process state and its environment *)

(** Error numbers of failed system calls. *)
Inductive Errno : Type :=
  | ENOENT | EEXIST | EISDIR | ENOTDIR | EACCES | EBADF | EINVAL | EIO.

(** Go [error] values.  [ErrNotFound] is the variable [exec.ErrNotFound]
    itself; [ExecError] is an [*exec.Error], the value [exec.LookPath]
    returns, which wraps a cause; [PathError] is an [*os.PathError];
    [ExitError] an [*exec.ExitError]; [ErrorString] any other error. *)
Inductive error : Type :=
  | ErrNotFound
  | ExecError (Name : string) (Err : error)
  | PathError (Op Path : string) (Err : Errno)
  | ExitError (code : Z)
  | ErrorString (msg : string).

(** [err == exec.ErrNotFound]: Go compares the two interface values, which
    are equal only when [err] holds the variable's own value; an error that
    wraps it is a different value. *)
Definition is_ErrNotFound (err : option error) : bool :=
  match err with
  | Some ErrNotFound => true
  | _ => false
  end.

(** A file-system entry: a regular file with its bytes and permission bits,
    or a directory. *)
Inductive node : Type :=
  | File (data : string) (perm : Z)
  | Dir (perm : Z).

(** Operands of the [log] functions, recorded as passed. *)
Inductive value : Type :=
  | VString (s : string)
  | VError (e : error).

Inductive LogEntry : Type :=
  | Println (v : list value)
  | Fatal (v : list value)
  | Fatalf (format : string) (v : list value).

(** The state of the process and of the machine it runs on: the file
    system by path, the table of open file descriptors (descriptor to
    path), what was written to standard output and standard error, what
    went through package [log], the argument vectors of the subprocesses
    that were started, and the two package-level variables of util.go.

    The file system is keyed by the path as the program spells it.  Two
    spellings of one file, or two links to it, are two keys: the model
    does not relate them.  The properties below therefore speak of the
    entry under a path that a call is given.  Where one says that the
    entries that existed are as they were ([Render], [RenderString]), the
    call writes only to a file that it has created itself, with [O_EXCL],
    and so to no file that had a name before. *)
Record State : Type := mkState {
  fs : gmap string node;
  fds : gmap nat string;
  stdout : string;
  stderr : string;
  logged : list LogEntry;
  started : list (list string);
  DryRunFlag : bool;
  warnedAboutGit : bool
}.

Definition set_fs (v : gmap string node) (st : State) : State :=
  mkState v (fds st) (stdout st) (stderr st) (logged st) (started st)
          (DryRunFlag st) (warnedAboutGit st).
Definition set_fds (v : gmap nat string) (st : State) : State :=
  mkState (fs st) v (stdout st) (stderr st) (logged st) (started st)
          (DryRunFlag st) (warnedAboutGit st).
Definition set_stdout (v : string) (st : State) : State :=
  mkState (fs st) (fds st) v (stderr st) (logged st) (started st)
          (DryRunFlag st) (warnedAboutGit st).
Definition set_stderr (v : string) (st : State) : State :=
  mkState (fs st) (fds st) (stdout st) v (logged st) (started st)
          (DryRunFlag st) (warnedAboutGit st).
Definition set_logged (v : list LogEntry) (st : State) : State :=
  mkState (fs st) (fds st) (stdout st) (stderr st) v (started st)
          (DryRunFlag st) (warnedAboutGit st).
Definition set_started (v : list (list string)) (st : State) : State :=
  mkState (fs st) (fds st) (stdout st) (stderr st) (logged st) v
          (DryRunFlag st) (warnedAboutGit st).
Definition set_warnedAboutGit (v : bool) (st : State) : State :=
  mkState (fs st) (fds st) (stdout st) (stderr st) (logged st) (started st)
          (DryRunFlag st) v.

(** How a call ends: it returns, the process exits ([os.Exit], which runs
    no deferred call), or it panics. *)
Inductive Outcome (A : Type) : Type :=
  | Return (a : A) (st : State)
  | Exit (code : Z) (st : State)
  | Panic (e : error) (st : State).
Arguments Return {A} a st.
Arguments Exit {A} code st.
Arguments Panic {A} e st.

Definition final {A : Type} (o : Outcome A) : State :=
  match o with
  | Return _ st | Exit _ st | Panic _ st => st
  end.

Definition returns {A : Type} (o : Outcome A) : bool :=
  match o with
  | Return _ _ => true
  | _ => false
  end.

Definition M (A : Type) : Type := State → Outcome A.

Global Instance M_ret : MRet M := λ A a st, Return a st.
Global Instance M_bind : MBind M := λ A B f m st,
  match m st with
  | Return a st' => f a st'
  | Exit c st' => Exit c st'
  | Panic e st' => Panic e st'
  end.

Definition gets {A : Type} (f : State → A) : M A := λ st, Return (f st) st.
Definition modify (f : State → State) : M unit := λ st, Return tt (f st).
Definition panic {A : Type} (e : error) : M A := λ st, Panic e st.
Definition os_Exit {A : Type} (code : Z) : M A := λ st, Exit code st.

(** [defer d] around the rest of a function body: [d] runs when the body
    returns or panics, and does not run when the process exits. *)
Definition defer {A : Type} (d : M unit) (body : M A) : M A := λ st,
  match body st with
  | Return a st' =>
    match d st' with
    | Return _ st'' => Return a st''
    | Exit c st'' => Exit c st''
    | Panic e st'' => Panic e st''
    end
  | Exit c st' => Exit c st'
  | Panic e st' =>
    match d st' with
    | Return _ st'' => Panic e st''
    | Exit c st'' => Exit c st''
    | Panic e' st'' => Panic e' st''
    end
  end.

(** System calls that can fail for reasons outside the model (permissions,
    resource limits, a failing device). *)
Inductive Syscall : Type :=
  | SysMkdirAll (path : string)
  | SysOpen (name : string) (flag : Z)
  | SysRead (name : string)
  | SysWrite (fd : nat)
  | SysClose (fd : nat)
  | SysExec (path : string).

(** What a subprocess did: its output streams (and their interleaving, as
    [CombinedOutput] sees it), its exit status and the file system it left. *)
Record ProcResult : Type := mkProc {
  p_stdout : string;
  p_stderr : string;
  p_combined : string;
  p_code : Z;
  p_fs : gmap string node
}.

(** The environment: the template engine, path functions of the platform,
    the toolchain root, executable lookup, the behaviour of subprocesses,
    the failures of system calls and the file mode creation mask of the
    process.  [filepath.Join] returns the empty string only when all its
    elements are empty.  Everything proved below holds for every
    environment. *)
Record Env : Type := mkEnv {
  Template : Type;
  Data : Type;
  template_Parse : string → string → option Template * option error;
  template_Execute : Template → Data → string * option error;
  filepath_Dir : string → string;
  filepath_Join : list string → string;
  runtime_GOROOT : string;
  LookPath : string → State → option string;
  fault : Syscall → State → option Errno;
  mkdir_created : string → State → list string;
  copy_fault : State → option (nat * error);
  process : string → list string → State → ProcResult;
  umask : Z;
  filepath_Join_nonempty :
    ∀ elem, forallb (String.eqb EmptyString) elem = false →
            filepath_Join elem ≠ EmptyString
}.

(** ** The standard-library calls of util.go *)

(** Flag bits of [os.OpenFile] (the values of package [syscall] on Linux). *)
Definition O_RDONLY : Z := 0x0.
Definition O_WRONLY : Z := 0x1.
Definition O_RDWR : Z := 0x2.
Definition O_CREATE : Z := 0x40.
Definition O_EXCL : Z := 0x80.
Definition O_TRUNC : Z := 0x200.

Definition has_flag (flag bit : Z) : bool := negb (Z.land flag bit =? 0).
Definition opens_for_writing (flag : Z) : bool :=
  has_flag flag O_WRONLY || has_flag flag O_RDWR.

(** Where [exec.Cmd] sends an output stream of the subprocess. *)
Inductive Writer : Type :=
  | Discard
  | OsStdout
  | OsStderr
  | Buffer.

(** [exec.Cmd]; [lookPathErr] is the unexported field of the same name,
    [Process] the process of a command that was started (its number),
    nil before. *)
Record Cmd : Type := mkCmd {
  Path : string;
  Args : list string;
  Stdout : Writer;
  Stderr : Writer;
  lookPathErr : option error;
  Process : option nat
}.

Definition set_Stdout (w : Writer) (c : Cmd) : Cmd :=
  mkCmd (Path c) (Args c) w (Stderr c) (lookPathErr c) (Process c).
Definition set_Stderr (w : Writer) (c : Cmd) : Cmd :=
  mkCmd (Path c) (Args c) (Stdout c) w (lookPathErr c) (Process c).

Module filepath.

Definition slash : ascii := ascii_of_nat 47.

Fixpoint strip_slashes (r : string) : string :=
  match r with
  | String c r' => if Ascii.eqb c slash then strip_slashes r' else r
  | EmptyString => r
  end.

Fixpoint until_slash (r : string) : string :=
  match r with
  | String c r' => if Ascii.eqb c slash then EmptyString
                   else String c (until_slash r')
  | EmptyString => r
  end.

(** [filepath.Base] on Unix: the last element of the path, trailing
    slashes removed; [.] for the empty path, [/] for a path of slashes. *)
Definition Base (path : string) : string :=
  match path with
  | EmptyString => "."
  | String _ _ =>
    match String.rev (until_slash (strip_slashes (String.rev path))) with
    | EmptyString => "/"
    | b => b
    end
  end.

End filepath.

Section Library.

Context (E : Env).

(** *** fmt and log *)

(** [fmt.Println] of string operands: the operands separated by spaces,
    then a newline, on standard output. *)
Definition fmt_Println (a : list string) : M unit :=
  modify (λ st, set_stdout (stdout st +:+ strings.Join a " " +:+ Str.LF) st).

Definition log_Println (v : list value) : M unit :=
  modify (λ st, set_logged (logged st ++ [Println v]) st).

(** [log.Fatal] is [log.Print] followed by [os.Exit(1)]. *)
Definition log_Fatal (v : list value) : M unit :=
  modify (λ st, set_logged (logged st ++ [Fatal v]) st) ;; os_Exit 1.

Definition log_Fatalf (format : string) (v : list value) : M unit :=
  modify (λ st, set_logged (logged st ++ [Fatalf format v]) st) ;; os_Exit 1.

(** The idiom [if err != nil { log.Fatal(err) }]. *)
Definition fatal_if (err : option error) : M unit :=
  match err with
  | Some e => log_Fatal [VError e]
  | None => mret tt
  end.

(** *** os and io *)

(** [syscallMode]: the permission bits of a [FileMode] with its setuid,
    setgid and sticky bits, as the system calls take them. *)
Definition syscallMode (i : Z) : Z :=
  Z.lor (Z.lor (Z.lor (Z.land i 0x1FF)
                      (if Z.testbit i 23 then 0x800 else 0))
               (if Z.testbit i 22 then 0x400 else 0))
        (if Z.testbit i 20 then 0x200 else 0).

(** The mode a file is created with, and the mode a directory is made
    with: the bits of the file mode creation mask are cleared. *)
Definition created_mode (perm : Z) : Z :=
  Z.ldiff (syscallMode perm) (umask E).
Definition made_mode (perm : Z) : Z :=
  Z.ldiff (Z.land (syscallMode perm) 0x3FF) (umask E).

(** A directory made at a path where nothing is; an existing entry is left
    alone. *)
Definition add_dir (perm : Z) (d : string) (m : gmap string node)
  : gmap string node :=
  match m !! d with
  | None => <[d := Dir perm]> m
  | Some _ => m
  end.

(** [os.MkdirAll]: creates the missing directories of [path]; it may fail
    after creating some of them.  It only ever adds directories. *)
Definition os_MkdirAll (path : string) (perm : Z) : M (option error) := λ st,
  let st' := set_fs (foldr (add_dir (made_mode perm)) (fs st)
                           (mkdir_created E path st)) st in
  match fault E (SysMkdirAll path) st with
  | Some errno => Return (Some (PathError "mkdir" path errno)) st'
  | None => Return None st'
  end.

(** The descriptor a successful open returns: one that is not in use. *)
Definition next_fd (st : State) : nat := fresh (dom (fds st)).

Definition new_fd (name : string) (st : State) : nat * State :=
  let fd := next_fd st in
  (fd, set_fds (<[fd := name]> (fds st)) st).

(** [os.OpenFile]: the [*os.File] is [None] (nil) when the call fails.
    With [O_CREATE] and [O_EXCL] an existing entry is an error; with
    [O_TRUNC] an existing regular file opened for writing is emptied and
    keeps its mode; with [O_CREATE] a missing file is created empty, with
    the permission bits that the mask leaves. *)
Definition os_OpenFile (name : string) (flag : Z) (perm : Z)
  : M (option nat * option error) := λ st,
  let fail errno := Return (None, Some (PathError "open" name errno)) st in
  let ok st1 := let '(fd, st2) := new_fd name st1 in
                Return (Some fd, None) st2 in
  match fault E (SysOpen name flag) st with
  | Some errno => fail errno
  | None =>
    match fs st !! name with
    | Some n =>
      if has_flag flag O_CREATE && has_flag flag O_EXCL then fail EEXIST
      else match n with
           | Dir _ => if opens_for_writing flag then fail EISDIR else ok st
           | File data p =>
             if has_flag flag O_TRUNC && opens_for_writing flag
             then ok (set_fs (<[name := File EmptyString p]> (fs st)) st)
             else ok st
           end
    | None =>
      if has_flag flag O_CREATE
      then ok (set_fs (<[name := File EmptyString (created_mode perm)]>
                         (fs st)) st)
      else fail ENOENT
    end
  end.

(** [os.Open] *)
Definition os_Open (name : string) : M (option nat * option error) :=
  os_OpenFile name O_RDONLY 0.

(** [Close] of an [*os.File]: the descriptor is released even when the call
    reports an error. *)
Definition File_Close (f : option nat) : M (option error) := λ st,
  match f with
  | None => Return (Some (ErrorString "invalid argument")) st
  | Some fd =>
    match fds st !! fd with
    | None => Return (Some (ErrorString "file already closed")) st
    | Some name =>
      let st' := set_fds (delete fd (fds st)) st in
      match fault E (SysClose fd) st with
      | Some errno => Return (Some (PathError "close" name errno)) st'
      | None => Return None st'
      end
    end
  end.

(** Writing through a handle.  util.go opens files for writing only with
    [O_EXCL] or [O_TRUNC], that is empty, so that writing at the offset of
    the handle is appending. *)
Definition File_Write (f : option nat) (b : string) : M (option error) := λ st,
  match f with
  | None => Return (Some (ErrorString "invalid argument")) st
  | Some fd =>
    match fds st !! fd with
    | None => Return (Some (ErrorString "file already closed")) st
    | Some name =>
      match fault E (SysWrite fd) st, fs st !! name with
      | Some errno, _ => Return (Some (PathError "write" name errno)) st
      | None, Some (File data p) =>
        Return None (set_fs (<[name := File (data +:+ b) p]> (fs st)) st)
      | None, _ => Return (Some (PathError "write" name EBADF)) st
      end
    end
  end.

(** [ioutil.ReadFile] *)
Definition ioutil_ReadFile (filename : string)
  : M (string * option error) := λ st,
  let fail errno :=
    Return (EmptyString, Some (PathError "open" filename errno)) st in
  match fault E (SysRead filename) st with
  | Some errno => fail errno
  | None =>
    match fs st !! filename with
    | Some (File data _) => Return (data, None) st
    | Some (Dir _) => fail EISDIR
    | None => fail ENOENT
    end
  end.

(** [os.Getenv]: the value of the variable, empty when the variable is
    not set.  [environ] is the environment of the process; util.go only
    reads it. *)
Definition os_Getenv (environ : gmap string string) (key : string)
  : M string :=
  mret (default EmptyString (environ !! key)).

(** The entry an open handle stands for. *)
Definition source_of (f : option nat) (st : State) : option node :=
  match f with
  | Some fd =>
    match fds st !! fd with
    | Some name => fs st !! name
    | None => None
    end
  | None => None
  end.

(** [io.Copy]: the bytes of the source are written to the destination;
    the copy may stop early with an error. *)
Definition io_Copy (dst src : option nat) : M (Z * option error) := λ st,
  match source_of src st with
  | Some (File data _) =>
    let '(n, stop) := match copy_fault E st with
                      | Some (n, e) => (Nat.min n (String.length data), Some e)
                      | None => (String.length data, None)
                      end in
    match File_Write dst (Str.take n data) st with
    | Return None st' => Return (Z.of_nat n, stop) st'
    | Return (Some e) st' => Return (0, Some e) st'
    | Exit c st' => Exit c st'
    | Panic e st' => Panic e st'
    end
  | Some (Dir _) => Return (0, Some (PathError "read" EmptyString EISDIR)) st
  | None => Return (0, Some (ErrorString "invalid argument")) st
  end.

(** *** os/exec *)

(** [exec.Command]: a name without path separators is looked up in the
    search path, and a failed lookup is kept in [lookPathErr] as an
    [*exec.Error] wrapping [ErrNotFound]; any other name is used as the
    path as it is. *)
Definition exec_Command (name : string) (arg : list string) : M Cmd := λ st,
  let cmd := mkCmd name (name :: arg) Discard Discard None None in
  if String.eqb (filepath.Base name) name then
    match LookPath E name st with
    | Some lp => Return (mkCmd lp (name :: arg) Discard Discard None None) st
    | None =>
      Return (mkCmd name (name :: arg) Discard Discard
                    (Some (ExecError name ErrNotFound)) None) st
    end
  else Return cmd st.

(** The execute bits of a file mode. *)
Definition executable (perm : Z) : bool := negb (Z.land perm 0x49 =? 0).

(** The unexported [argv] of [exec.Cmd]: the argument vector the process is
    started with, [Args], or the path alone when [Args] is empty. *)
Definition argv (c : Cmd) : list string :=
  match Args c with
  | [] => [Path c]
  | a => a
  end.

(** What [Start] checks before it comes to [fork/exec]: it refuses a
    command that was started before, returns the failed lookup of
    [exec.Command] if there was one, and refuses an empty path. *)
Definition refused (c : Cmd) : option error :=
  match Process c with
  | Some _ => Some (ErrorString "exec: already started")
  | None =>
    match lookPathErr c with
    | Some e => Some e
    | None =>
      if String.eqb (Path c) EmptyString
      then Some (ErrorString "exec: no command")
      else None
    end
  end.

(** Starting the process of a command and waiting for it: the error of a
    refused command, the [*os.PathError] of a failed [fork/exec], or the
    subprocess run to its end. *)
Definition start_and_wait (c : Cmd) : M (option ProcResult * option error) := λ st,
  let fail errno :=
    Return (None, Some (PathError "fork/exec" (Path c) errno)) st in
  match refused c with
  | Some e => Return (None, Some e) st
  | None =>
    match fault E (SysExec (Path c)) st with
    | Some errno => fail errno
    | None =>
      match fs st !! Path c with
      | None => fail ENOENT
      | Some (Dir _) => fail EACCES
      | Some (File _ perm) =>
        if executable perm then
          let r := process E (Path c) (argv c) st in
          Return (Some r, if p_code r =? 0 then None
                          else Some (ExitError (p_code r)))
                 (set_started (started st ++ [argv c]) (set_fs (p_fs r) st))
        else fail EACCES
      end
    end
  end.

(** What reaches a [bytes.Buffer] the stream was pointed at. *)
Definition captured (w : Writer) (text : string) : string :=
  match w with
  | Buffer => text
  | _ => EmptyString
  end.

(** What a stream of the subprocess adds to the streams of the process. *)
Definition deliver (w : Writer) (text : string) : M unit :=
  match w with
  | OsStdout => modify (λ st, set_stdout (stdout st +:+ text) st)
  | OsStderr => modify (λ st, set_stderr (stderr st +:+ text) st)
  | _ => mret tt
  end.

(** [Run] of an [*exec.Cmd]; returns the contents of the buffers the two
    streams were pointed at, and the error. *)
Definition Cmd_Run (c : Cmd) : M (string * string * option error) :=
  '(r, err) ← start_and_wait c;
  match r with
  | None => mret (EmptyString, EmptyString, err)
  | Some r =>
    deliver (Stdout c) (p_stdout r) ;;
    deliver (Stderr c) (p_stderr r) ;;
    mret (captured (Stdout c) (p_stdout r), captured (Stderr c) (p_stderr r), err)
  end.

(** [CombinedOutput] of an [*exec.Cmd]: both streams in one buffer. *)
Definition Cmd_CombinedOutput (c : Cmd) : M (string * option error) :=
  '(r, err) ← start_and_wait c;
  match r with
  | None => mret (EmptyString, err)
  | Some r => mret (p_combined r, err)
  end.

(** *** text/template *)

(** [template.ParseFiles] of one file. *)
Definition template_ParseFiles (filename : string)
  : M (option (Template E) * option error) :=
  '(b, err) ← ioutil_ReadFile filename;
  match err with
  | Some e => mret (None, Some e)
  | None => mret (template_Parse E (filepath.Base filename) b)
  end.

(** [template.Must] *)
Definition template_Must (r : option (Template E) * option error)
  : M (Template E) :=
  match r with
  | (Some t, None) => mret t
  | (_, Some e) => panic e
  | (None, None) => panic (ErrorString "nil template")
  end.

(** [Execute] of a [*Template]: the text produced, up to an error if there is
    one, is written to [wr]. *)
Definition Template_Execute (tpl : Template E) (wr : option nat) (x : Data E)
  : M (option error) :=
  let '(text, err) := template_Execute E tpl x in
  werr ← File_Write wr text;
  match werr with
  | Some e => mret (Some e)
  | None => mret err
  end.

End Library.

(** ** internal/build/util.go *)

Section Util.

Context (E : Env).

(** [MustRun] executes the given command and exits the host process for
    any error. *)
Definition MustRun (cmd : Cmd) : M unit :=
  fmt_Println [">>>"; strings.Join (Args cmd) " "] ;;
  dry ← gets DryRunFlag;
  if negb dry then
    let cmd := set_Stderr OsStderr cmd in
    let cmd := set_Stdout OsStdout cmd in
    '(_, _, err) ← Cmd_Run E cmd;
    fatal_if err
  else mret tt.

Definition MustRunCommand (cmd : string) (args : list string) : M unit :=
  c ← exec_Command E cmd args;
  MustRun c.

(** [GOPATH] returns the value that the GOPATH environment variable
    should be set to. *)
Definition GOPATH (environ : gmap string string) : M string :=
  v ← os_Getenv environ "GOPATH";
  (if String.eqb v EmptyString
   then log_Fatal [VString "GOPATH is not set"]
   else mret tt) ;;
  os_Getenv environ "GOPATH".

(** [VERSION] returns the content of the VERSION file. *)
Definition VERSION : M string :=
  '(version, err) ← ioutil_ReadFile E "VERSION";
  fatal_if err ;;
  mret (strings.TrimSpace version).

Definition git : string := "/home/afranzin/software/bin/bin/git".

(** [RunGit] runs a git subcommand and returns its output. *)
Definition RunGit (args : list string) : M string :=
  cmd ← exec_Command E git args;
  let cmd := set_Stderr Buffer (set_Stdout Buffer cmd) in
  '(stdout_buf, stderr_buf, err) ← Cmd_Run E cmd;
  if is_ErrNotFound err then
    warned ← gets warnedAboutGit;
    (if negb warned then
       log_Println [VString "Warning: can't find 'git' in PATH"] ;;
       modify (set_warnedAboutGit true)
     else mret tt) ;;
    mret EmptyString
  else
    match err with
    | Some e =>
      log_Fatal [VString (strings.Join (Args cmd) " "); VString ": ";
                 VError e; VString Str.LF; VString stderr_buf]
    | None => mret tt
    end ;;
    mret (strings.TrimSpace stdout_buf).

(** The unexported [render]. *)
Definition render (tpl : Template E) (outputFile : string) (outputPerm : Z)
           (x : Data E) : M unit :=
  err ← os_MkdirAll E (filepath_Dir E outputFile) 0x1ED;
  fatal_if err ;;
  '(out, err) ← os_OpenFile E outputFile
                  (Z.lor (Z.lor O_CREATE O_WRONLY) O_EXCL) outputPerm;
  fatal_if err ;;
  err ← Template_Execute E tpl out x;
  fatal_if err ;;
  err ← File_Close E out;
  fatal_if err.

(** [Render] renders the given template file into outputFile. *)
Definition Render (templateFile outputFile : string) (outputPerm : Z)
           (x : Data E) : M unit :=
  r ← template_ParseFiles E templateFile;
  tpl ← template_Must E r;
  render tpl outputFile outputPerm x.

(** [RenderString] renders the given template string into outputFile. *)
Definition RenderString (templateContent outputFile : string)
           (outputPerm : Z) (x : Data E) : M unit :=
  tpl ← template_Must E (template_Parse E EmptyString templateContent);
  render tpl outputFile outputPerm x.

(** [CopyFile] copies a file. *)
Definition CopyFile (dst src : string) (mode : Z) : M unit :=
  err ← os_MkdirAll E (filepath_Dir E dst) 0x1ED;
  fatal_if err ;;
  '(destFile, err) ← os_OpenFile E dst
                       (Z.lor (Z.lor O_CREATE O_WRONLY) O_TRUNC) mode;
  fatal_if err ;;
  defer (File_Close E destFile ;; mret tt) (
    '(srcFile, err) ← os_Open E src;
    fatal_if err ;;
    defer (File_Close E srcFile ;; mret tt) (
      '(_, err) ← io_Copy E destFile srcFile;
      fatal_if err)).

(** The first loop of [ExpandPackagesNoVendor]. *)
Definition wants_expansion (patterns : list string) : bool :=
  fold_left (λ expand pkg,
               if strings.Contains pkg "..." then true else expand)
            patterns false.

(** Its second loop, over the lines of the listing. *)
Definition keep_non_vendor (lines : list string) : list string :=
  fold_left (λ packages line,
               if negb (strings.Contains line "/vendor/")
               then packages ++ [strings.TrimSpace line]
               else packages)
            lines [].

(** [ExpandPackagesNoVendor] expands a cmd/go import path pattern,
    skipping vendored packages. *)
Definition ExpandPackagesNoVendor (patterns : list string) : M (list string) :=
  let expand := wants_expansion patterns in
  if expand then
    let args := ["list"] ++ patterns in
    cmd ← exec_Command E (filepath_Join E [runtime_GOROOT E; "bin"; "go"]) args;
    '(out, err) ← Cmd_CombinedOutput E cmd;
    match err with
    | Some e =>
      log_Fatalf ("package listing failed: %v" +:+ Str.LF +:+ "%s")
                 [VError e; VString out]
    | None => mret tt
    end ;;
    let packages := keep_non_vendor (strings.Split out Str.LF) in
    mret packages
  else mret patterns.

(** The package listing as [ExpandPackagesNoVendor] runs it: the [go]
    command of the toolchain root with [list] and the patterns, its
    combined output captured. *)
Definition go_list (patterns : list string) : M (string * option error) :=
  cmd ← exec_Command E (filepath_Join E [runtime_GOROOT E; "bin"; "go"])
                     (["list"] ++ patterns);
  Cmd_CombinedOutput E cmd.

End Util.

(** ** Vocabulary of the properties *)

(** The string of the given byte values. *)
Definition bytes (l : list nat) : string :=
  foldr (λ n s, String (ascii_of_nat n) s) EmptyString l.

(** White space, written out: the UTF-8 encodings of the code points with
    the Unicode property White_Space, U+0009 to U+000D (tab, line feed,
    vertical tab, form feed, carriage return), U+0020 (space), U+0085,
    U+00A0, U+1680, U+2000 to U+200A, U+2028, U+2029, U+202F, U+205F and
    U+3000.  The table is independent of the code of [unicode.IsSpace]. *)
Definition White_Space : list string :=
  List.map bytes
    [ [9]; [10]; [11]; [12]; [13]; [32]; [194; 133]; [194; 160];
      [225; 154; 128];
      [226; 128; 128]; [226; 128; 129]; [226; 128; 130]; [226; 128; 131];
      [226; 128; 132]; [226; 128; 133]; [226; 128; 134]; [226; 128; 135];
      [226; 128; 136]; [226; 128; 137]; [226; 128; 138];
      [226; 128; 168]; [226; 128; 169]; [226; 128; 175];
      [226; 129; 159]; [227; 128; 128] ]%nat.

(** A white-space rune in its encoding: an entry of the table. *)
Definition space_rune (chunk : string) : Prop := In chunk White_Space.

(** What the code takes for one: a non-empty string that decodes, as a
    whole, to a rune of [unicode.IsSpace]. *)
Definition decodes_to_space (chunk : string) : Prop :=
  chunk ≠ EmptyString ∧
  ∃ r, utf8.DecodeRuneInString chunk = (r, String.length chunk)
       ∧ unicode.IsSpace r = true.

(** A string made of white-space runes only. *)
Inductive Spaces : string → Prop :=
  | Spaces_nil : Spaces EmptyString
  | Spaces_cons (chunk rest : string) :
      space_rune chunk → Spaces rest → Spaces (chunk +:+ rest).

(** The first, the last rune of the string is white space. *)
Definition starts_with_space (s : string) : bool :=
  unicode.IsSpace (utf8.DecodeRuneInString s).1.
Definition ends_with_space (s : string) : bool :=
  unicode.IsSpace (utf8.DecodeLastRuneInString s).1.

(** [v] is [s] with its leading and trailing white space removed: [s] is
    [v] between two runs of white-space runes of the table, and [v]
    neither starts nor ends with one. *)
Definition trimmed (s v : string) : Prop :=
  (∃ pre post, s = pre +:+ v +:+ post ∧ Spaces pre ∧ Spaces post)
  ∧ (∀ chunk rest, space_rune chunk → v ≠ chunk +:+ rest)
  ∧ (∀ init chunk, space_rune chunk → v ≠ init +:+ chunk).

(** A line the second loop of [ExpandPackagesNoVendor] keeps. *)
Definition non_vendor (line : string) : bool :=
  negb (strings.Contains line "/vendor/").

(** What [MustRun] prints before anything else. *)
Definition command_line (cmd : Cmd) : string :=
  ">>> " +:+ strings.Join (Args cmd) " " +:+ Str.LF.

(** The command as [RunGit] runs it. *)
Definition git_cmd (args : list string) : Cmd :=
  mkCmd git (git :: args) Buffer Buffer None None.

(** The flags [CopyFile] opens its destination with. *)
Definition create_trunc : Z := Z.lor (Z.lor O_CREATE O_WRONLY) O_TRUNC.

(** The state after [log.Fatal(err)]. *)
Definition fatal (e : error) (st : State) : State :=
  set_logged (logged st ++ [Fatal [VError e]]) st.

(** The state after [MustRun] printed the command line. *)
Definition announced (cmd : Cmd) (st : State) : State :=
  set_stdout (stdout st +:+ command_line cmd) st.

(** The process of the command can be started: [Start] does not refuse
    the command (it was not started before, no lookup error is recorded in
    it, its path is not empty), and the path is an executable regular file
    that [fork/exec] does not refuse. *)
Definition can_start (E : Env) (c : Cmd) (st : State) : bool :=
  match refused c, fault E (SysExec (Path c)) st, fs st !! Path c with
  | None, None, Some (File _ perm) => executable perm
  | _, _, _ => false
  end.

(** The state after the subprocess of the command has run to its end:
    the file system as the subprocess left it, and its argument vector
    added to the started ones. *)
Definition after_process (c : Cmd) (r : ProcResult) (st : State) : State :=
  set_started (started st ++ [argv c]) (set_fs (p_fs r) st).

(** The [go] command of the toolchain root, and the command that
    [ExpandPackagesNoVendor] makes of it for a path with a directory
    part. *)
Definition go_path (E : Env) : string :=
  filepath_Join E [runtime_GOROOT E; "bin"; "go"].
Definition go_cmd (E : Env) (patterns : list string) : Cmd :=
  mkCmd (go_path E) (go_path E :: "list" :: patterns) Discard Discard None
        None.

(** The flags [render] opens its output with. *)
Definition create_excl : Z := Z.lor (Z.lor O_CREATE O_WRONLY) O_EXCL.

(** ** A concrete machine, for running the model *)

Module Sample.

(** Paths are joined with slashes, the empty elements left out; the
    directory of a path is what precedes its last slash; no system call
    fails for outside reasons; the mask is 022; [go list] prints the given
    listing and [git] prints a commit hash. *)
Definition join (elem : list string) : string :=
  if forallb (String.eqb EmptyString) elem then EmptyString
  else match strings.Join
               (List.filter (λ e, negb (String.eqb EmptyString e)) elem) "/"
       with
       | EmptyString => "."
       | p => p
       end.

Definition join_nonempty :
  ∀ elem, forallb (String.eqb EmptyString) elem = false →
          join elem ≠ EmptyString :=
  ltac:(intros elem H; unfold join; rewrite H;
        destruct (strings.Join _ _); discriminate).

(** A template is its text.  Executing it writes the text up to the
    first action, and fails there if there is one: the data has no
    fields. *)
Fixpoint text_before (tpl : string) : string * bool :=
  match tpl with
  | String c rest =>
    match rest with
    | String c' _ =>
      if Ascii.eqb c "{" && Ascii.eqb c' "{" then (EmptyString, true)
      else let '(text, action) := text_before rest in (String c text, action)
    | EmptyString => (String c EmptyString, false)
    end
  | EmptyString => (EmptyString, false)
  end.

Definition execute (tpl : string) (x : unit) : string * option error :=
  let '(text, action) := text_before tpl in
  (text, if action then Some (ErrorString "can't evaluate field") else None).

Definition dir (path : string) : string :=
  match String.rev (filepath.strip_slashes (String.rev (Str.take
          (String.length path - String.length (filepath.Base path)) path)))
  with
  | EmptyString => if strings.HasPrefix path "/" then "/" else "."
  | d => d
  end.

Definition env (listing : string) (code : Z) : Env :=
  mkEnv string unit
    (λ _ text, (Some text, None))
    execute
    dir join "/usr/lib/go"
    (λ _ _, None)
    (λ _ _, None)
    (λ path _, [path])
    (λ _, None)
    (λ path _ st,
       if String.eqb path "/usr/lib/go/bin/go"
       then mkProc listing EmptyString listing code (fs st)
       else mkProc ("deadbeef" +:+ Str.LF) EmptyString
                   ("deadbeef" +:+ Str.LF) 0 (fs st))
    0x12
    join_nonempty.

Definition empty : State :=
  mkState ∅ ∅ EmptyString EmptyString [] [] false false.

(** A machine with the Go toolchain installed, a VERSION file and one
    source file. *)
Definition machine : State :=
  set_fs (<["/usr/lib/go/bin/go" := File "ELF" 0x1ED]>
          (<["VERSION" := File ("1.8.17" +:+ Str.LF) 0x1A4]>
           (<["build/deb.rules" := File "override_dh_auto_build:" 0x1A4]> ∅)))
         empty.

Definition listing : string :=
  "pkg/a" +:+ Str.LF +:+ "pkg/vendor/b" +:+ Str.LF +:+ "pkg/c".

(** The same machine with the dry-run flag set. *)
Definition dry : State :=
  mkState (fs machine) ∅ EmptyString EmptyString [] [] true false.

Definition env0 : Env := env listing 0.
Definition patterns : list string := ["fmt"; "pkg/..."].

(** The machine after the directory [out] was made, and after the empty
    file [out/deb.rules] was opened in it as descriptor 0. *)
Definition with_out : State :=
  set_fs (<["out" := Dir 0x1ED]> (fs machine)) machine.
Definition copying : State :=
  set_fds {[ 0%nat := "out/deb.rules" ]}
    (set_fs (<["out/deb.rules" := File EmptyString 0x1A4]> (fs with_out))
            with_out).

(** The machine with git installed where [RunGit] looks for it. *)
Definition with_git : State :=
  set_fs (<[git := File "ELF" 0x1ED]> (fs machine)) machine.

(** A machine whose VERSION file holds a space and a line feed. *)
Definition blank : State :=
  set_fs (<["VERSION" := File (" " +:+ Str.LF) 0x1A4]> ∅) empty.

(** A command for the installed [go], and one for a program that is not
    there. *)
Definition go_version : Cmd :=
  mkCmd "/usr/lib/go/bin/go" ["go"; "version"] Discard Discard None None.
Definition missing : Cmd :=
  mkCmd "/usr/bin/dpkg-buildpackage" ["dpkg-buildpackage"] Discard Discard
        None None.

End Sample.

(** * Properties *)

(** ** Byte strings *)

Module StrFacts.
Import Str.

Lemma app_nil_l (s : string) : EmptyString +:+ s = s.
Proof. reflexivity. Qed.

Lemma app_cons (c : ascii) (s t : string) :
  String c s +:+ t = String c (s +:+ t).
Proof. reflexivity. Qed.

Lemma app_nil_r (s : string) : s +:+ EmptyString = s.
Proof. induction s as [|c s IH]; [done|]. by rewrite app_cons, IH. Qed.

Lemma app_assoc (a b c : string) : (a +:+ b) +:+ c = a +:+ (b +:+ c).
Proof.
  induction a as [|x a IH]; [done|]. by rewrite !app_cons, IH.
Qed.

Lemma length_app (a b : string) :
  String.length (a +:+ b) = (String.length a + String.length b)%nat.
Proof.
  induction a as [|x a IH]; [done|]. rewrite app_cons. simpl. by rewrite IH.
Qed.

Lemma take_drop (n : nat) (s : string) : take n s +:+ drop n s = s.
Proof.
  revert s. induction n as [|n IH]; intros [|c s]; simpl; try done.
  by rewrite app_cons, IH.
Qed.

Lemma length_take (n : nat) (s : string) :
  (n ≤ String.length s)%nat → String.length (take n s) = n.
Proof.
  revert s. induction n as [|n IH]; intros [|c s] Hn; simpl in *; try done.
  - lia.
  - rewrite IH; [done|lia].
Qed.

Lemma length_drop (n : nat) (s : string) :
  String.length (drop n s) = (String.length s - n)%nat.
Proof.
  revert s. induction n as [|n IH]; intros [|c s]; simpl; by try lia.
Qed.

Lemma take_all (n : nat) (s : string) :
  (String.length s ≤ n)%nat → take n s = s.
Proof.
  revert s. induction n as [|n IH]; intros [|c s] Hn; simpl in *; try done.
  - lia.
  - rewrite IH; [done|lia].
Qed.

Lemma drop_all (n : nat) (s : string) :
  (String.length s ≤ n)%nat → drop n s = EmptyString.
Proof.
  revert s. induction n as [|n IH]; intros [|c s] Hn; simpl in *; try done.
  - lia.
  - apply IH. lia.
Qed.

Lemma take_app_length (a b : string) : take (String.length a) (a +:+ b) = a.
Proof.
  induction a as [|x a IH]; [by destruct b|].
  rewrite app_cons. simpl. by rewrite IH.
Qed.

Lemma drop_app_length (a b : string) : drop (String.length a) (a +:+ b) = b.
Proof. induction a as [|x a IH]; [done|]. by rewrite app_cons. Qed.

Lemma take_take (n m : nat) (s : string) :
  (n ≤ m)%nat → take n (take m s) = take n s.
Proof.
  revert m s. induction n as [|n IH]; intros [|m] [|c s] Hn; simpl; try done.
  - lia.
  - rewrite IH; [done|lia].
Qed.

(** The byte at an index inside the string heads the rest from there. *)
Lemma get_drop (n : nat) (s : string) (c : ascii) :
  String.get n s = Some c → ∃ t, drop n s = String c t.
Proof.
  revert s. induction n as [|n IH]; intros [|x s] Hg; simpl in *; try done.
  - injection Hg as ->. by eexists.
  - by apply IH.
Qed.

Lemma get_in_range (n : nat) (s : string) :
  (n < String.length s)%nat → ∃ c, String.get n s = Some c.
Proof.
  revert s. induction n as [|n IH]; intros [|x s] Hn; simpl in *; try lia.
  - by eexists.
  - apply IH. lia.
Qed.

Lemma length_zero (s : string) : String.length s = 0%nat → s = EmptyString.
Proof. by destruct s. Qed.

End StrFacts.

(** ** strings.HasPrefix and strings.Contains *)

Module ContainsFacts.
Import Str StrFacts strings.

Lemma HasPrefix_app (p r : string) : HasPrefix (p +:+ r) p = true.
Proof.
  induction p as [|c p IH]; [by destruct r|].
  rewrite app_cons. simpl. by rewrite Ascii.eqb_refl.
Qed.

Lemma HasPrefix_inv (s p : string) :
  HasPrefix s p = true → ∃ r, s = p +:+ r.
Proof.
  revert s. induction p as [|c p IH]; intros s Hp.
  - by exists s.
  - destruct s as [|x s]; simpl in Hp; [done|].
    destruct (Ascii.eqb x c) eqn:Hc; [|done].
    apply Ascii.eqb_eq in Hc as ->.
    destruct (IH _ Hp) as [r ->]. by exists r.
Qed.

Lemma Contains_unfold (s substr : string) :
  Contains s substr =
    HasPrefix s substr
    || match s with
       | EmptyString => false
       | String _ s' => Contains s' substr
       end.
Proof. by destruct s. Qed.

(** [Contains s substr] holds exactly when [substr] stands somewhere in
    [s]. *)
Lemma Contains_intro (a p b : string) : Contains (a +:+ p +:+ b) p = true.
Proof.
  induction a as [|c a IH].
  - rewrite app_nil_l, Contains_unfold, HasPrefix_app. done.
  - rewrite app_cons, Contains_unfold, IH. by rewrite orb_true_r.
Qed.

Lemma Contains_inv (s p : string) :
  Contains s p = true → ∃ a b, s = a +:+ p +:+ b.
Proof.
  induction s as [|c s IH]; rewrite Contains_unfold; intros H;
    apply orb_true_iff in H as [H|H]; try done.
  - apply HasPrefix_inv in H as [r ->]. by exists EmptyString, r.
  - apply HasPrefix_inv in H as [r ->]. by exists EmptyString, r.
  - destruct (IH H) as (a & b & ->). by exists (String c a), b.
Qed.

(** A substring of a part is a substring of the whole. *)
Lemma Contains_embed (a t b p : string) :
  Contains t p = true → Contains (a +:+ t +:+ b) p = true.
Proof.
  intros (x & y & ->)%Contains_inv.
  rewrite !app_assoc, <- (app_assoc a x). apply Contains_intro.
Qed.

End ContainsFacts.

(** ** unicode/utf8 *)

Module Utf8Facts.
Import Str StrFacts utf8.

Lemma first_Lead (b : Z) (sz : nat) (lo hi : Z) :
  first b = Lead sz lo hi → sz = 2%nat ∨ sz = 3%nat ∨ sz = 4%nat.
Proof.
  unfold first. repeat case_match; intros [= <- <- <-]; auto.
Qed.

(** Case analysis on a decoding [H : DecodeRuneInString s = d]: the
    string is opened up to four bytes and every test of the decoder is
    decided, each with its equation. *)
Ltac decode_cases s H :=
  destruct s as [|? [|? [|? [|? ?]]]]; try done;
  unfold DecodeRuneInString in H;
  match type of H with
  | context [first ?b] =>
    let Hf := fresh "Hf" in
    destruct (first b) as [| |sz lo hi] eqn:Hf;
    [ | | destruct (first_Lead _ _ _ _ Hf) as [->|[->| ->]] ]
  end;
  simpl in H;
  repeat match type of H with
         | context [if ?b then _ else _] => destruct b eqn:?
         end;
  simpl in H; subst.

Ltac decode_again :=
  unfold DecodeRuneInString; simpl;
  repeat match goal with
         | Heq : ?x = _ |- context [?x] => rewrite Heq; simpl
         end.

(** A rune of a non-empty string is at least one byte wide and lies
    inside the string. *)
Lemma Decode_size (s : string) (r : Z) (n : nat) :
  s ≠ EmptyString → DecodeRuneInString s = (r, n) →
  (1 ≤ n ≤ String.length s)%nat.
Proof.
  intros Hs H. decode_cases s H; injection H as <- <-; simpl; lia.
Qed.

(** Decoding looks at the bytes of the rune only. *)
Lemma Decode_take (s : string) (r : Z) (n : nat) :
  s ≠ EmptyString → DecodeRuneInString s = (r, n) →
  DecodeRuneInString (take n s) = (r, n).
Proof.
  intros Hs H. decode_cases s H; injection H as <- <-; by decode_again.
Qed.

Lemma first_ASCII (b : Z) : b < RuneSelf → first b = ASCII.
Proof.
  unfold first, RuneSelf. intros Hb.
  destruct (b <? 0x80) eqn:Hlt; [done|]. lia.
Qed.

Lemma RuneError_not_ASCII : ¬ RuneError < RuneSelf.
Proof. unfold RuneError, RuneSelf. lia. Qed.

Lemma back_to_start_le (s : string) (lim : Z) (n : nat) (start : Z) :
  back_to_start s lim n start ≤ start.
Proof.
  revert start. induction n as [|n IH]; intros start; simpl; [lia|].
  repeat case_match; try lia. specialize (IH (start - 1)). lia.
Qed.

Lemma len_pos (s : string) : s ≠ EmptyString → 0 < len s.
Proof. destruct s; [done|]. unfold len. simpl. lia. Qed.

(** The three ways [DecodeLastRuneInString] ends on a non-empty string:
    a last byte below [RuneSelf]; a rune decoded from [start] that ends
    with the string; or [RuneError] of width one. *)
Lemma DecodeLast_cases (s : string) (r : Z) (n : nat) :
  s ≠ EmptyString → DecodeLastRuneInString s = (r, n) →
  (r = at_ s (len s - 1) ∧ r < RuneSelf ∧ n = 1%nat)
  ∨ (∃ start, 0 ≤ start < len s ∧ start + Z.of_nat n = len s
              ∧ DecodeRuneInString (slice s start (len s)) = (r, n))
  ∨ (r = RuneError ∧ n = 1%nat).
Proof.
  intros Hs. pose proof (len_pos s Hs) as Hlen.
  unfold DecodeLastRuneInString.
  destruct (len s =? 0) eqn:H0; [lia|].
  destruct (at_ s (len s - 1) <? RuneSelf) eqn:Hascii.
  { intros [= <- <-]. left. split; [done|]. split; [lia|done]. }
  pose proof (back_to_start_le s
    (if len s - UTFMax <? 0 then 0 else len s - UTFMax)
    (Z.to_nat UTFMax) (len s - 1 - 1)) as Hb.
  revert Hb. set (b := back_to_start s _ _ _). intros Hb.
  set (start := if b <? 0 then 0 else b).
  assert (0 ≤ start < len s) as Hstart by (subst start; case_match; lia).
  destruct (DecodeRuneInString (slice s start (len s))) as [r' size] eqn:Hd.
  destruct (start + Z.of_nat size =? len s) eqn:Hend; simpl.
  - intros [= <- <-]. right. left. exists start. split; [done|].
    split; [lia|done].
  - intros [= <- <-]. by right; right.
Qed.

Lemma DecodeLast_size (s : string) (r : Z) (n : nat) :
  s ≠ EmptyString → DecodeLastRuneInString s = (r, n) →
  (1 ≤ n ≤ String.length s)%nat.
Proof.
  intros Hs H. pose proof (len_pos s Hs) as Hlen. unfold len in Hlen.
  destruct (DecodeLast_cases s r n Hs H)
    as [(_ & _ & ->)|[(start & H0 & Hend & Hd)|[_ ->]]]; try lia.
  unfold len in *. lia.
Qed.

(** When the last rune is not [RuneError], the bytes it spans decode to
    it, and to all of them. *)
Lemma DecodeLast_chunk (s : string) (r : Z) (n : nat) :
  s ≠ EmptyString → DecodeLastRuneInString s = (r, n) → r ≠ RuneError →
  DecodeRuneInString (drop (String.length s - n) s) = (r, n).
Proof.
  intros Hs H Hr. pose proof (len_pos s Hs) as Hlen. unfold len in Hlen.
  destruct (DecodeLast_cases s r n Hs H)
    as [(-> & Hlt & ->)|[(start & H0 & Hend & Hd)|[-> _]]]; [| |done].
  - unfold at_, len in *.
    replace (Z.to_nat (Z.of_nat (String.length s) - 1))
      with (String.length s - 1)%nat in * by lia.
    destruct (get_in_range (String.length s - 1) s) as [c Hc]; [lia|].
    rewrite Hc in *. destruct (get_drop _ _ _ Hc) as [t Ht].
    rewrite Ht. assert (t = EmptyString) as ->.
    { apply length_zero.
      pose proof (length_drop (String.length s - 1) s) as Hl.
      rewrite Ht in Hl. simpl in Hl. lia. }
    unfold DecodeRuneInString. by rewrite (first_ASCII _ Hlt).
  - unfold slice, len in *.
    replace (String.length s - n)%nat with (Z.to_nat start) by lia.
    rewrite take_all in Hd; [done|]. rewrite length_drop. lia.
Qed.

Lemma byte_val_range (c : ascii) : 0 ≤ byte_val c < 256.
Proof.
  unfold byte_val. pose proof (N_ascii_bounded c). lia.
Qed.

Lemma RuneStart_continuation (c : ascii) :
  0x80 ≤ byte_val c ≤ 0xBF → RuneStart (byte_val c) = false.
Proof.
  destruct c as [[] [] [] [] [] [] [] []]; vm_compute; intros [H1 H2];
    first [done | by destruct H1 | by destruct H2].
Qed.

Lemma RuneStart_lead (c : ascii) :
  0xC0 ≤ byte_val c → RuneStart (byte_val c) = true.
Proof.
  destruct c as [[] [] [] [] [] [] [] []]; vm_compute; intros H1;
    first [done | by destruct H1].
Qed.

Lemma first_Lead_range (b : Z) (sz : nat) (lo hi : Z) :
  first b = Lead sz lo hi → 0xC2 ≤ b ∧ 0x80 ≤ lo ∧ hi ≤ 0xBF.
Proof.
  unfold first, locb, hicb.
  repeat (case_match; try done); intros [= <- <- <-]; lia.
Qed.

Lemma out_of_false (lo hi b : Z) : out_of lo hi b = false → lo ≤ b ≤ hi.
Proof. unfold out_of. lia. Qed.

Lemma len_app (a b : string) : len (a +:+ b) = len a + len b.
Proof. unfold len. rewrite length_app. lia. Qed.

Lemma len_nonneg (s : string) : 0 ≤ len s.
Proof. unfold len. lia. Qed.

Lemma get_app_r (init t : string) (i : nat) :
  String.get (String.length init + i) (init +:+ t) = String.get i t.
Proof. induction init as [|x init IH]; [done|]. by rewrite app_cons. Qed.

Lemma at_app_r (init t : string) (i : Z) :
  0 ≤ i → at_ (init +:+ t) (len init + i) = at_ t i.
Proof.
  intros Hi. unfold at_, len.
  replace (Z.to_nat (Z.of_nat (String.length init) + i))
    with (String.length init + Z.to_nat i)%nat by lia.
  by rewrite get_app_r.
Qed.

Lemma slice_app_r (init t : string) :
  slice (init +:+ t) (len init) (len (init +:+ t)) = t.
Proof.
  unfold slice. rewrite len_app. unfold len.
  rewrite Nat2Z.id, drop_app_length. apply take_all. lia.
Qed.

(** The backward scan stops at the first rune start it meets. *)
Lemma back_to_start_found (s : string) (lim : Z) (j n : nat) (start : Z) :
  (j < n)%nat → lim ≤ start - Z.of_nat j →
  RuneStart (at_ s (start - Z.of_nat j)) = true →
  (∀ i, (i < j)%nat → RuneStart (at_ s (start - Z.of_nat i)) = false) →
  back_to_start s lim n start = start - Z.of_nat j.
Proof.
  revert n start. induction j as [|j IH]; intros n start Hn Hlim Hst Hcont.
  - destruct n as [|n]; [lia|]. simpl.
    replace (start - Z.of_nat 0) with start in * by lia.
    destruct (start <? lim) eqn:Hlt; [lia|]. by rewrite Hst.
  - destruct n as [|n]; [lia|]. simpl.
    destruct (start <? lim) eqn:Hlt; [lia|].
    pose proof (Hcont 0%nat ltac:(lia)) as H0.
    replace (start - Z.of_nat 0) with start in H0 by lia. rewrite H0.
    rewrite (IH n (start - 1)); [lia|lia|lia| |].
    + by replace (start - 1 - Z.of_nat j) with (start - Z.of_nat (S j)) by lia.
    + intros i Hi. specialize (Hcont (S i) ltac:(lia)).
      by replace (start - 1 - Z.of_nat i) with (start - Z.of_nat (S i)) by lia.
Qed.

(** A rune that spans two bytes or more, standing at the end of the
    string, is what [DecodeLastRuneInString] finds. *)
Lemma DecodeLast_found (init chunk : string) (r : Z) (n : nat) :
  (2 ≤ n ≤ 4)%nat → String.length chunk = n →
  DecodeRuneInString chunk = (r, n) →
  ¬ at_ chunk (Z.of_nat n - 1) < RuneSelf →
  RuneStart (at_ chunk 0) = true →
  (∀ i, 1 ≤ i < Z.of_nat n - 1 → RuneStart (at_ chunk i) = false) →
  DecodeLastRuneInString (init +:+ chunk) = (r, n).
Proof.
  intros Hn Hlen Hd Hlast Hfirst Hcont.
  pose proof (len_nonneg init) as Hinit.
  assert (len (init +:+ chunk) = len init + Z.of_nat n) as Htotal.
  { rewrite len_app. unfold len. by rewrite Hlen. }
  unfold DecodeLastRuneInString. rewrite Htotal.
  destruct (len init + Z.of_nat n =? 0) eqn:H0; [lia|].
  replace (len init + Z.of_nat n - 1) with (len init + (Z.of_nat n - 1)) by lia.
  rewrite at_app_r by lia.
  destruct (at_ chunk (Z.of_nat n - 1) <? RuneSelf) eqn:Hascii; [lia|].
  set (lim := if len init + Z.of_nat n - UTFMax <? 0 then 0
              else len init + Z.of_nat n - UTFMax).
  assert (lim ≤ len init) as Hlim.
  { subst lim. unfold UTFMax. case_match; lia. }
  rewrite (back_to_start_found _ lim (n - 2) _ _).
  - replace (len init + (Z.of_nat n - 1) - 1 - Z.of_nat (n - 2))
      with (len init) by lia.
    destruct (len init <? 0) eqn:Hneg; [lia|].
    rewrite <- Htotal, slice_app_r, Hd, Htotal.
    by rewrite Z.eqb_refl.
  - unfold UTFMax. lia.
  - lia.
  - replace (len init + (Z.of_nat n - 1) - 1 - Z.of_nat (n - 2))
      with (len init + 0) by lia.
    by rewrite at_app_r by lia.
  - intros i Hi.
    replace (len init + (Z.of_nat n - 1) - 1 - Z.of_nat i)
      with (len init + (Z.of_nat n - 2 - Z.of_nat i)) by lia.
    rewrite at_app_r by lia. apply Hcont. lia.
Qed.

Lemma first_ASCII_inv (b : Z) : first b = ASCII → b < RuneSelf.
Proof.
  unfold first, RuneSelf. destruct (b <? 0x80) eqn:Hlt; [lia|].
  repeat (case_match; try done).
Qed.

Lemma DecodeLast_ascii (init : string) (c : ascii) :
  byte_val c < RuneSelf →
  DecodeLastRuneInString (init +:+ String c EmptyString) = (byte_val c, 1%nat).
Proof.
  intros Hc. pose proof (len_nonneg init) as Hinit.
  unfold DecodeLastRuneInString. rewrite len_app.
  change (len (String c EmptyString)) with 1.
  destruct (len init + 1 =? 0) eqn:H0; [lia|].
  replace (len init + 1 - 1) with (len init + 0) by lia.
  rewrite at_app_r by lia. change (at_ (String c EmptyString) 0) with (byte_val c).
  destruct (byte_val c <? RuneSelf) eqn:Hlt; [done|lia].
Qed.

(** A continuation byte: one that passed the range test of the decoder. *)
Lemma accepted_continuation (c0 c : ascii) (sz : nat) (lo hi : Z) :
  first (byte_val c0) = Lead sz lo hi → out_of lo hi (byte_val c) = false →
  0x80 ≤ byte_val c ≤ 0xBF.
Proof.
  intros (_ & Hlo & Hhi)%first_Lead_range Hin%out_of_false. lia.
Qed.

Lemma continuation_locb_hicb (c : ascii) :
  out_of locb hicb (byte_val c) = false → 0x80 ≤ byte_val c ≤ 0xBF.
Proof. intros Hin%out_of_false. unfold locb, hicb in Hin. lia. Qed.

(** The last rune of a string that ends with the encoding of a rune other
    than [RuneError] is that rune. *)
Lemma DecodeLast_app (init chunk : string) (r : Z) :
  chunk ≠ EmptyString →
  DecodeRuneInString chunk = (r, String.length chunk) → r ≠ RuneError →
  DecodeLastRuneInString (init +:+ chunk) = (r, String.length chunk).
Proof.
  intros Hne H Hr. pose proof H as Hd.
  decode_cases chunk H;
    pose proof (f_equal fst H) as Hfst; pose proof (f_equal snd H) as Hlen;
    simpl in Hfst, Hlen; try done; try lia; clear H;
    try match goal with
        | _ : _ = S (S (S (S (String.length ?t)))) |- _ =>
          assert (t = EmptyString) as -> by (apply length_zero; lia)
        end;
    try (subst r; apply DecodeLast_ascii; by apply first_ASCII_inv);
    repeat match goal with
           | Ho : out_of _ _ (byte_val _) = false |- _ =>
             first [ pose proof (accepted_continuation _ _ _ _ _ Hf Ho)
                   | pose proof (continuation_locb_hicb _ Ho) ];
             clear Ho
           end;
    pose proof (first_Lead_range _ _ _ _ Hf) as (Hlead & _ & _);
    (apply DecodeLast_found; [simpl; lia|done|done| | |]).
  all: try (unfold at_, RuneSelf; simpl; lia).
  all: try (apply RuneStart_lead; lia).
  - intros i Hi. simpl in Hi. assert (i = 1) as -> by lia.
    by apply RuneStart_continuation.
  - intros i Hi. simpl in Hi. assert (i = 1 ∨ i = 2) as [-> | ->] by lia;
      by apply RuneStart_continuation.
Qed.

(** *** The white-space runes, byte by byte *)

Lemma lor_low (q b k : Z) :
  0 ≤ k → 0 ≤ q → 0 ≤ b < 2 ^ k → Z.lor (q * 2 ^ k) b = q * 2 ^ k + b.
Proof.
  intros Hk Hq Hb.
  rewrite <- Z.add_lor_land.
  assert (Z.land (q * 2 ^ k) b = 0) as ->; [|lia].
  apply Z.bits_inj'. intros n Hn. rewrite Z.land_spec, Z.bits_0.
  destruct (Z.lt_ge_cases n k) as [Hlt|Hge].
  - by rewrite Z.mul_pow2_bits_low by lia.
  - destruct (Z.eq_dec b 0) as [->|Hb0]; [by rewrite Z.bits_0, andb_false_r|].
    rewrite (Z.bits_above_log2 b n); [by rewrite andb_false_r|lia|].
    assert (Z.log2 b < k) by (apply Z.log2_lt_pow2; lia). lia.
Qed.

Lemma land_maskx (c : ascii) :
  0x80 ≤ byte_val c ≤ 0xBF → Z.land (byte_val c) maskx = byte_val c - 0x80.
Proof.
  destruct c as [[] [] [] [] [] [] [] []]; vm_compute; intros [H1 H2];
    first [done | by destruct H1 | by destruct H2].
Qed.

Lemma land_mask2 (c : ascii) :
  0xC0 ≤ byte_val c ≤ 0xDF → Z.land (byte_val c) mask2 = byte_val c - 0xC0.
Proof.
  destruct c as [[] [] [] [] [] [] [] []]; vm_compute; intros [H1 H2];
    first [done | by destruct H1 | by destruct H2].
Qed.

Lemma land_mask3 (c : ascii) :
  0xE0 ≤ byte_val c ≤ 0xEF → Z.land (byte_val c) mask3 = byte_val c - 0xE0.
Proof.
  destruct c as [[] [] [] [] [] [] [] []]; vm_compute; intros [H1 H2];
    first [done | by destruct H1 | by destruct H2].
Qed.

Lemma land_mask4 (c : ascii) :
  0xF0 ≤ byte_val c ≤ 0xF7 → Z.land (byte_val c) mask4 = byte_val c - 0xF0.
Proof.
  destruct c as [[] [] [] [] [] [] [] []]; vm_compute; intros [H1 H2];
    first [done | by destruct H1 | by destruct H2].
Qed.

(** The table [first], row by row. *)
Lemma first_Lead_rows (b : Z) (sz : nat) (lo hi : Z) :
  first b = Lead sz lo hi →
  (sz = 2%nat ∧ 0xC2 ≤ b ≤ 0xDF ∧ lo = 0x80 ∧ hi = 0xBF)
  ∨ (sz = 3%nat ∧ b = 0xE0 ∧ lo = 0xA0 ∧ hi = 0xBF)
  ∨ (sz = 3%nat ∧ 0xE1 ≤ b ≤ 0xEF ∧ b ≠ 0xED ∧ lo = 0x80 ∧ hi = 0xBF)
  ∨ (sz = 3%nat ∧ b = 0xED ∧ lo = 0x80 ∧ hi = 0x9F)
  ∨ (sz = 4%nat ∧ b = 0xF0 ∧ lo = 0x90 ∧ hi = 0xBF)
  ∨ (sz = 4%nat ∧ 0xF1 ≤ b ≤ 0xF3 ∧ lo = 0x80 ∧ hi = 0xBF)
  ∨ (sz = 4%nat ∧ b = 0xF4 ∧ lo = 0x80 ∧ hi = 0x8F).
Proof.
  unfold first, locb, hicb.
  repeat (case_match; try done); intros [= <- <- <-]; lia.
Qed.

(** The value of a rune of two, three and four bytes. *)
Lemma rune2 (c0 c1 : ascii) :
  0xC0 ≤ byte_val c0 ≤ 0xDF → 0x80 ≤ byte_val c1 ≤ 0xBF →
  Z.lor (Z.shiftl (Z.land (byte_val c0) mask2) 6) (Z.land (byte_val c1) maskx)
  = (byte_val c0 - 0xC0) * 64 + (byte_val c1 - 0x80).
Proof.
  intros H0 H1. rewrite land_mask2, land_maskx by done.
  rewrite Z.shiftl_mul_pow2 by lia.
  rewrite lor_low by (change (2 ^ 6) with 64; lia). reflexivity.
Qed.

Lemma rune3 (c0 c1 c2 : ascii) :
  0xE0 ≤ byte_val c0 ≤ 0xEF → 0x80 ≤ byte_val c1 ≤ 0xBF →
  0x80 ≤ byte_val c2 ≤ 0xBF →
  Z.lor (Z.lor (Z.shiftl (Z.land (byte_val c0) mask3) 12)
               (Z.shiftl (Z.land (byte_val c1) maskx) 6))
        (Z.land (byte_val c2) maskx)
  = (byte_val c0 - 0xE0) * 4096 + (byte_val c1 - 0x80) * 64
    + (byte_val c2 - 0x80).
Proof.
  intros H0 H1 H2. rewrite land_mask3, !land_maskx by done.
  rewrite !Z.shiftl_mul_pow2 by lia.
  rewrite (lor_low _ _ 12)
    by (change (2 ^ 6) with 64; change (2 ^ 12) with 4096; lia).
  replace ((byte_val c0 - 0xE0) * 2 ^ 12 + (byte_val c1 - 0x80) * 2 ^ 6)
    with (((byte_val c0 - 0xE0) * 64 + (byte_val c1 - 0x80)) * 2 ^ 6)
    by (change (2 ^ 6) with 64; change (2 ^ 12) with 4096; lia).
  rewrite lor_low by (change (2 ^ 6) with 64; lia).
  change (2 ^ 6) with 64. lia.
Qed.

Lemma rune4 (c0 c1 c2 c3 : ascii) :
  0xF0 ≤ byte_val c0 ≤ 0xF7 → 0x80 ≤ byte_val c1 ≤ 0xBF →
  0x80 ≤ byte_val c2 ≤ 0xBF → 0x80 ≤ byte_val c3 ≤ 0xBF →
  Z.lor (Z.lor (Z.lor (Z.shiftl (Z.land (byte_val c0) mask4) 18)
                      (Z.shiftl (Z.land (byte_val c1) maskx) 12))
               (Z.shiftl (Z.land (byte_val c2) maskx) 6))
        (Z.land (byte_val c3) maskx)
  = (byte_val c0 - 0xF0) * 262144 + (byte_val c1 - 0x80) * 4096
    + (byte_val c2 - 0x80) * 64 + (byte_val c3 - 0x80).
Proof.
  intros H0 H1 H2 H3. rewrite land_mask4, !land_maskx by done.
  rewrite !Z.shiftl_mul_pow2 by lia.
  rewrite (lor_low _ _ 18)
    by (change (2 ^ 12) with 4096; change (2 ^ 18) with 262144; lia).
  replace ((byte_val c0 - 0xF0) * 2 ^ 18 + (byte_val c1 - 0x80) * 2 ^ 12)
    with (((byte_val c0 - 0xF0) * 64 + (byte_val c1 - 0x80)) * 2 ^ 12)
    by (change (2 ^ 12) with 4096; change (2 ^ 18) with 262144; lia).
  rewrite (lor_low _ _ 12)
    by (change (2 ^ 6) with 64; change (2 ^ 12) with 4096; lia).
  replace (((byte_val c0 - 0xF0) * 64 + (byte_val c1 - 0x80)) * 2 ^ 12
           + (byte_val c2 - 0x80) * 2 ^ 6)
    with ((((byte_val c0 - 0xF0) * 64 + (byte_val c1 - 0x80)) * 64
           + (byte_val c2 - 0x80)) * 2 ^ 6)
    by (change (2 ^ 6) with 64; change (2 ^ 12) with 4096; lia).
  rewrite lor_low by (change (2 ^ 6) with 64; lia).
  change (2 ^ 6) with 64. lia.
Qed.

End Utf8Facts.

(** ** strings.TrimSpace *)

Module TrimFacts.
Import Str StrFacts utf8 Utf8Facts unicode strings.

Lemma IsSpace_RuneError : IsSpace RuneError = false.
Proof. reflexivity. Qed.

Lemma IsSpace_valid (r : Z) : IsSpace r = true → r ≠ RuneError.
Proof. intros H ->. by rewrite IsSpace_RuneError in H. Qed.

Lemma byte_val_inv (c : ascii) (n : nat) :
  byte_val c = Z.of_nat n → c = ascii_of_nat n.
Proof.
  unfold byte_val, ascii_of_nat. intros H.
  assert (N_of_ascii c = N.of_nat n) as <- by lia.
  by rewrite ascii_N_embedding.
Qed.

Ltac in_table := vm_compute; repeat (first [left; reflexivity | right]).

Ltac byte_is c n :=
  let H := fresh in
  assert (c = ascii_of_nat n) as H by (apply byte_val_inv; simpl; lia);
  rewrite H in *; clear H.

Lemma IsSpace_cases (r : Z) :
  IsSpace r = true →
  r = 9 ∨ r = 10 ∨ r = 11 ∨ r = 12 ∨ r = 13 ∨ r = 32 ∨ r = 0x85 ∨ r = 0xA0
  ∨ r = 0x1680 ∨ 0x2000 ≤ r ≤ 0x200A ∨ 0x2028 ≤ r ≤ 0x2029 ∨ r = 0x202F
  ∨ r = 0x205F ∨ r = 0x3000.
Proof.
  unfold IsSpace, White_Space_excluding_Latin, MaxLatin1.
  case_match; lia.
Qed.

Ltac pin1 a x :=
  assert (byte_val a = Z.of_nat x) by (simpl; lia); byte_is a x.

(** What decodes to a rune of [unicode.IsSpace] is in the table ... *)
Lemma decodes_in_table (chunk : string) :
  decodes_to_space chunk → space_rune chunk.
Proof.
  unfold space_rune.
  intros [Hne (r & H & Hsp%IsSpace_cases)].
  decode_cases chunk H;
    pose proof (f_equal fst H) as Hfst; pose proof (f_equal snd H) as Hlen;
    simpl in Hfst, Hlen; try done; try lia; clear H;
    try match goal with
        | _ : _ = S (S (S (S (String.length ?t)))) |- _ =>
          assert (t = EmptyString) as -> by (apply length_zero; lia)
        end;
    try (pose proof (first_Lead_rows _ _ _ _ Hf) as Hrows);
    repeat match goal with
           | Ho : out_of _ _ _ = false |- _ => apply out_of_false in Ho
           end;
    unfold locb, hicb, RuneError in *; try lia.
  - (* one byte *)
    apply first_ASCII_inv in Hf. unfold RuneSelf in Hf.
    destruct Hsp as [?|[?|[?|[?|[?|[?|?]]]]]]; try lia.
    + pin1 a 9%nat. in_table.
    + pin1 a 10%nat. in_table.
    + pin1 a 11%nat. in_table.
    + pin1 a 12%nat. in_table.
    + pin1 a 13%nat. in_table.
    + pin1 a 32%nat. in_table.
  - (* two bytes *)
    rewrite rune2 in Hfst by lia.
    destruct Hsp as [?|[?|[?|[?|[?|[?|[?|[?|?]]]]]]]]; try lia.
    + pin1 a 194%nat. pin1 a0 133%nat. in_table.
    + pin1 a 194%nat. pin1 a0 160%nat. in_table.
  - (* three bytes *)
    rewrite rune3 in Hfst by lia.
    destruct Hsp as [?|[?|[?|[?|[?|[?|[?|[?|[?|[?|[?|[?|[?|?]]]]]]]]]]]]];
      try lia.
    + pin1 a 225%nat. pin1 a0 154%nat. pin1 a1 128%nat. in_table.
    + pin1 a 226%nat. pin1 a0 128%nat.
      assert (byte_val a1 = 128 ∨ byte_val a1 = 129 ∨ byte_val a1 = 130
              ∨ byte_val a1 = 131 ∨ byte_val a1 = 132 ∨ byte_val a1 = 133
              ∨ byte_val a1 = 134 ∨ byte_val a1 = 135 ∨ byte_val a1 = 136
              ∨ byte_val a1 = 137 ∨ byte_val a1 = 138)
        as [?|[?|[?|[?|[?|[?|[?|[?|[?|[?|?]]]]]]]]]] by (simpl in *; lia).
      * pin1 a1 128%nat. in_table.
      * pin1 a1 129%nat. in_table.
      * pin1 a1 130%nat. in_table.
      * pin1 a1 131%nat. in_table.
      * pin1 a1 132%nat. in_table.
      * pin1 a1 133%nat. in_table.
      * pin1 a1 134%nat. in_table.
      * pin1 a1 135%nat. in_table.
      * pin1 a1 136%nat. in_table.
      * pin1 a1 137%nat. in_table.
      * pin1 a1 138%nat. in_table.
    + pin1 a 226%nat. pin1 a0 128%nat.
      assert (byte_val a1 = 168 ∨ byte_val a1 = 169) as [?|?]
          by (simpl in *; lia).
      * pin1 a1 168%nat. in_table.
      * pin1 a1 169%nat. in_table.
    + pin1 a 226%nat. pin1 a0 128%nat. pin1 a1 175%nat. in_table.
    + pin1 a 226%nat. pin1 a0 129%nat. pin1 a1 159%nat. in_table.
    + pin1 a 227%nat. pin1 a0 128%nat. pin1 a1 128%nat. in_table.
  - (* four bytes: above every white-space rune *)
    rewrite rune4 in Hfst by lia. lia.
Qed.

(** ... and each entry of the table decodes to one. *)
Lemma table_decodes (chunk : string) :
  space_rune chunk → decodes_to_space chunk.
Proof.
  unfold space_rune, White_Space. simpl.
  intros H. repeat destruct H as [<-|H]; try done;
    (split; [done|]; eexists; split; reflexivity).
Qed.

(** [unicode.IsSpace] accepts the white space of the table and nothing
    else. *)
Lemma space_rune_table (chunk : string) :
  space_rune chunk ↔ decodes_to_space chunk.
Proof. split; [apply table_decodes|apply decodes_in_table]. Qed.

Lemma Spaces_one (chunk : string) : space_rune chunk → Spaces chunk.
Proof.
  intros H. rewrite <- (app_nil_r chunk). by constructor; [|constructor].
Qed.

Lemma Spaces_app (a b : string) : Spaces a → Spaces b → Spaces (a +:+ b).
Proof.
  intros Ha Hb. induction Ha as [|chunk rest Hc Hr IH]; [done|].
  rewrite app_assoc. constructor; auto.
Qed.

(** A decoded rune that is not [RuneError] is decoded the same with more
    bytes behind it. *)
Lemma Decode_app (chunk t : string) (r : Z) :
  DecodeRuneInString chunk = (r, String.length chunk) → r ≠ RuneError →
  chunk ≠ EmptyString →
  DecodeRuneInString (chunk +:+ t) = (r, String.length chunk).
Proof.
  intros H Hr Hne.
  decode_cases chunk H;
    pose proof (f_equal fst H) as Hfst; pose proof (f_equal snd H) as Hlen;
    simpl in Hfst, Hlen; subst r; try done; try lia;
    rewrite ?app_cons; simpl String.length; by decode_again.
Qed.

(** [trim_left] removes a run of white-space runes... *)
Lemma trim_left_prefix (k : nat) (s : string) :
  ∃ pre, s = pre +:+ trim_left IsSpace k s ∧ Spaces pre.
Proof.
  revert s. induction k as [|k IH]; intros s; simpl.
  { exists EmptyString. split; [done|constructor]. }
  destruct s as [|c t] eqn:Hs; [exists EmptyString; split; [done|constructor]|].
  rewrite <- Hs. assert (s ≠ EmptyString) as Hne by (by subst).
  clear Hs c t.
  destruct (DecodeRuneInString s) as [r size] eqn:Hd.
  destruct (IsSpace r) eqn:Hsp.
  - destruct (IH (drop size s)) as (pre & Hpre & Hspaces).
    pose proof (Decode_size s r size Hne Hd) as Hsize.
    exists (take size s +:+ pre). split.
    + rewrite app_assoc, <- Hpre. by rewrite take_drop.
    + constructor; [|done]. apply decodes_in_table. split.
      * intros Hnil. pose proof (length_take size s) as Hl.
        rewrite Hnil in Hl. simpl in Hl. lia.
      * exists r. rewrite length_take by lia.
        split; [by apply Decode_take|done].
  - exists EmptyString. split; [done|constructor].
Qed.

(** ... and all of it. *)
Lemma trim_left_stops (k : nat) (s : string) :
  (String.length s ≤ k)%nat →
  starts_with_space (trim_left IsSpace k s) = false.
Proof.
  revert s. induction k as [|k IH]; intros s Hk; simpl.
  { by rewrite (length_zero s) by lia. }
  destruct s as [|c t] eqn:Hs; [done|].
  rewrite <- Hs in *. assert (s ≠ EmptyString) as Hne by (by subst).
  clear Hs c t.
  destruct (DecodeRuneInString s) as [r size] eqn:Hd.
  destruct (IsSpace r) eqn:Hsp.
  - pose proof (Decode_size s r size Hne Hd) as Hsize.
    apply IH. rewrite length_drop. lia.
  - unfold starts_with_space. by rewrite Hd.
Qed.

Lemma trim_right_suffix (k : nat) (s : string) :
  ∃ post, s = trim_right IsSpace k s +:+ post ∧ Spaces post.
Proof.
  revert s. induction k as [|k IH]; intros s; simpl.
  { exists EmptyString. rewrite app_nil_r. split; [done|constructor]. }
  destruct s as [|c t] eqn:Hs; [exists EmptyString; split; [done|constructor]|].
  rewrite <- Hs. assert (s ≠ EmptyString) as Hne by (by subst).
  clear Hs c t.
  destruct (DecodeLastRuneInString s) as [r size] eqn:Hd.
  destruct (IsSpace r) eqn:Hsp.
  - destruct (IH (take (String.length s - size) s)) as (post & Hpost & Hspaces).
    pose proof (DecodeLast_size s r size Hne Hd) as Hsize.
    exists (post +:+ drop (String.length s - size) s). split.
    + rewrite <- app_assoc, <- Hpost. by rewrite take_drop.
    + apply Spaces_app; [done|]. apply Spaces_one, decodes_in_table. split.
      * intros Hnil. pose proof (length_drop (String.length s - size) s) as Hl.
        rewrite Hnil in Hl. simpl in Hl. lia.
      * exists r. rewrite length_drop.
        replace (String.length s - (String.length s - size))%nat
          with size by lia.
        split; [|done].
        apply DecodeLast_chunk; [done..|by apply IsSpace_valid].
  - exists EmptyString. rewrite app_nil_r. split; [done|constructor].
Qed.

Lemma trim_right_stops (k : nat) (s : string) :
  (String.length s ≤ k)%nat →
  ends_with_space (trim_right IsSpace k s) = false.
Proof.
  revert s. induction k as [|k IH]; intros s Hk; simpl.
  { by rewrite (length_zero s) by lia. }
  destruct s as [|c t] eqn:Hs; [done|].
  rewrite <- Hs in *. assert (s ≠ EmptyString) as Hne by (by subst).
  clear Hs c t.
  destruct (DecodeLastRuneInString s) as [r size] eqn:Hd.
  destruct (IsSpace r) eqn:Hsp.
  - pose proof (DecodeLast_size s r size Hne Hd) as Hsize.
    apply IH. rewrite length_take by lia. lia.
  - unfold ends_with_space. by rewrite Hd.
Qed.

(** Cutting white space off the end does not uncover white space at the
    start. *)
Lemma starts_with_space_app (v post : string) :
  starts_with_space v = true → starts_with_space (v +:+ post) = true.
Proof.
  unfold starts_with_space.
  destruct (DecodeRuneInString v) as [r n] eqn:Hd. simpl. intros Hsp.
  assert (v ≠ EmptyString) as Hne.
  { intros ->. simpl in Hd. injection Hd as <- _. done. }
  pose proof (Decode_size v r n Hne Hd) as Hsize.
  pose proof (Decode_take v r n Hne Hd) as Ht.
  rewrite <- (take_drop n v), app_assoc.
  rewrite <- (length_take n v) in Ht at 2 by lia.
  rewrite (Decode_app _ _ r Ht); [done|by apply IsSpace_valid|].
  intros Hnil. pose proof (length_take n v) as Hl.
  rewrite Hnil in Hl. simpl in Hl. lia.
Qed.

(** [TrimSpace s] is [s] without a run of white-space runes at its start
    and one at its end, the bytes between them unchanged; and it neither
    starts nor ends with a white-space rune. *)
Lemma TrimSpace_spec (s : string) :
  ∃ pre post,
    s = pre +:+ TrimSpace s +:+ post
    ∧ Spaces pre ∧ Spaces post
    ∧ starts_with_space (TrimSpace s) = false
    ∧ ends_with_space (TrimSpace s) = false.
Proof.
  unfold TrimSpace, TrimFunc, TrimRightFunc, TrimLeftFunc.
  set (u := trim_left IsSpace (String.length s) s).
  destruct (trim_left_prefix (String.length s) s) as (pre & Hpre & Hsp).
  destruct (trim_right_suffix (String.length u) u) as (post & Hpost & Hsp').
  fold u in Hpre. exists pre, post.
  split; [by rewrite <- Hpost|]. split; [done|]. split; [done|].
  split; [|by apply trim_right_stops].
  destruct (starts_with_space (trim_right IsSpace (String.length u) u)) eqn:Hv;
    [|done].
  apply (starts_with_space_app _ post) in Hv. rewrite <- Hpost in Hv.
  subst u. by rewrite trim_left_stops in Hv.
Qed.

Lemma space_rune_starts (chunk rest : string) :
  space_rune chunk → starts_with_space (chunk +:+ rest) = true.
Proof.
  intros [Hne (r & Hd & Hsp)]%table_decodes. unfold starts_with_space.
  by rewrite (Decode_app _ _ r Hd) by (done || by apply IsSpace_valid).
Qed.

Lemma space_rune_ends (init chunk : string) :
  space_rune chunk → ends_with_space (init +:+ chunk) = true.
Proof.
  intros [Hne (r & Hd & Hsp)]%table_decodes. unfold ends_with_space.
  by rewrite (DecodeLast_app _ _ r Hne Hd) by (by apply IsSpace_valid).
Qed.

(** [TrimSpace] removes the leading and trailing white space, all of it
    and nothing else. *)
Lemma TrimSpace_trimmed (s : string) : trimmed s (TrimSpace s).
Proof.
  destruct (TrimSpace_spec s) as (pre & post & Hs & Hp & Hq & Hl & Hr).
  split; [by exists pre, post|]. split.
  - intros chunk rest Hc Hv. rewrite Hv in Hl.
    by rewrite space_rune_starts in Hl.
  - intros init chunk Hc Hv. rewrite Hv in Hr.
    by rewrite space_rune_ends in Hr.
Qed.

(** Enough steps are as good as more. *)
Lemma trim_left_steps (f : Z → bool) (k1 k2 : nat) (s : string) :
  (String.length s ≤ k1)%nat → (String.length s ≤ k2)%nat →
  trim_left f k1 s = trim_left f k2 s.
Proof.
  revert k2 s. induction k1 as [|k1 IH]; intros k2 s H1 H2.
  - rewrite (length_zero s) by lia. by destruct k2.
  - destruct s as [|c t] eqn:Hs; [by destruct k2|].
    rewrite <- Hs in *. assert (s ≠ EmptyString) as Hne by (by subst).
    destruct k2 as [|k2]; [subst; simpl in H2; lia|].
    simpl. rewrite Hs. rewrite <- Hs.
    destruct (DecodeRuneInString s) as [r size] eqn:Hd.
    destruct (f r); [|done].
    pose proof (Decode_size s r size Hne Hd).
    apply IH; rewrite length_drop; lia.
Qed.

Lemma trim_right_steps (f : Z → bool) (k1 k2 : nat) (s : string) :
  (String.length s ≤ k1)%nat → (String.length s ≤ k2)%nat →
  trim_right f k1 s = trim_right f k2 s.
Proof.
  revert k2 s. induction k1 as [|k1 IH]; intros k2 s H1 H2.
  - rewrite (length_zero s) by lia. by destruct k2.
  - destruct s as [|c t] eqn:Hs; [by destruct k2|].
    rewrite <- Hs in *. assert (s ≠ EmptyString) as Hne by (by subst).
    destruct k2 as [|k2]; [subst; simpl in H2; lia|].
    simpl. rewrite Hs. rewrite <- Hs.
    destruct (DecodeLastRuneInString s) as [r size] eqn:Hd.
    destruct (f r); [|done].
    pose proof (DecodeLast_size s r size Hne Hd).
    apply IH; rewrite length_take by lia; lia.
Qed.

Lemma app_nonempty (a b : string) :
  a ≠ EmptyString → a +:+ b ≠ EmptyString.
Proof. by destruct a. Qed.

Lemma TrimLeftFunc_space_rune (chunk w : string) :
  space_rune chunk →
  TrimLeftFunc (chunk +:+ w) IsSpace = TrimLeftFunc w IsSpace.
Proof.
  intros [Hne (r & Hd & Hsp)]%table_decodes. unfold TrimLeftFunc.
  pose proof (app_nonempty chunk w Hne) as Hne'.
  destruct (chunk +:+ w) as [|c t] eqn:Hs; [done|]. rewrite <- Hs in *.
  assert (String.length (chunk +:+ w) = S (String.length t)) as Hl
    by (by rewrite Hs).
  rewrite Hl. simpl. rewrite Hs. rewrite <- Hs.
  rewrite (Decode_app _ _ r Hd) by (done || by apply IsSpace_valid).
  rewrite Hsp, drop_app_length.
  apply trim_left_steps; [|done]. rewrite length_app in Hl.
  destruct chunk; [done|]. simpl in Hl. lia.
Qed.

Lemma TrimLeftFunc_Spaces (pre w : string) :
  Spaces pre → TrimLeftFunc (pre +:+ w) IsSpace = TrimLeftFunc w IsSpace.
Proof.
  induction 1 as [|chunk rest Hc Hr IH]; [done|].
  rewrite app_assoc, TrimLeftFunc_space_rune by done. exact IH.
Qed.

Lemma TrimLeftFunc_stays (w : string) :
  starts_with_space w = false → TrimLeftFunc w IsSpace = w.
Proof.
  unfold starts_with_space, TrimLeftFunc. intros H.
  destruct w as [|c t] eqn:Hw; [done|]. rewrite <- Hw in *.
  assert (String.length w = S (String.length t)) as -> by (by rewrite Hw).
  simpl. rewrite Hw. rewrite <- Hw.
  destruct (DecodeRuneInString w) as [r size]. simpl in H. by rewrite H.
Qed.

Lemma TrimRightFunc_space_rune (w chunk : string) :
  space_rune chunk →
  TrimRightFunc (w +:+ chunk) IsSpace = TrimRightFunc w IsSpace.
Proof.
  intros [Hne (r & Hd & Hsp)]%table_decodes. unfold TrimRightFunc.
  assert (w +:+ chunk ≠ EmptyString) as Hne'.
  { destruct w; [done|]. by rewrite app_cons. }
  destruct (w +:+ chunk) as [|c t] eqn:Hs; [done|]. rewrite <- Hs in *.
  assert (String.length (w +:+ chunk) = S (String.length t)) as Hl
    by (by rewrite Hs).
  rewrite Hl. simpl. rewrite Hs. rewrite <- Hs.
  rewrite (DecodeLast_app _ _ r Hne Hd) by (by apply IsSpace_valid).
  rewrite Hsp, length_app.
  replace (String.length w + String.length chunk - String.length chunk)%nat
    with (String.length w) by lia.
  rewrite take_app_length.
  apply trim_right_steps; [|done]. rewrite length_app in Hl.
  destruct chunk; [done|]. simpl in Hl. lia.
Qed.

Lemma TrimRightFunc_Spaces (post w : string) :
  Spaces post → TrimRightFunc (w +:+ post) IsSpace = TrimRightFunc w IsSpace.
Proof.
  intros H. revert w. induction H as [|chunk rest Hc Hr IH]; intros w.
  - by rewrite app_nil_r.
  - rewrite <- app_assoc, IH. by apply TrimRightFunc_space_rune.
Qed.

Lemma TrimRightFunc_stays (w : string) :
  ends_with_space w = false → TrimRightFunc w IsSpace = w.
Proof.
  unfold ends_with_space, TrimRightFunc. intros H.
  destruct w as [|c t] eqn:Hw; [done|]. rewrite <- Hw in *.
  assert (String.length w = S (String.length t)) as -> by (by rewrite Hw).
  simpl. rewrite Hw. rewrite <- Hw.
  destruct (DecodeLastRuneInString w) as [r size]. simpl in H. by rewrite H.
Qed.

Lemma starts_with_space_inv (v : string) :
  starts_with_space v = true →
  ∃ chunk rest, v = chunk +:+ rest ∧ space_rune chunk.
Proof.
  unfold starts_with_space.
  destruct (DecodeRuneInString v) as [r n] eqn:Hd. simpl. intros Hsp.
  assert (v ≠ EmptyString) as Hne.
  { intros ->. simpl in Hd. injection Hd as <- _. done. }
  pose proof (Decode_size v r n Hne Hd) as Hsize.
  exists (take n v), (drop n v). split; [by rewrite take_drop|].
  apply decodes_in_table. split.
  - intros Hnil. pose proof (length_take n v) as Hl.
    rewrite Hnil in Hl. simpl in Hl. lia.
  - exists r. rewrite length_take by lia. split; [by apply Decode_take|done].
Qed.

Lemma ends_with_space_inv (v : string) :
  ends_with_space v = true →
  ∃ init chunk, v = init +:+ chunk ∧ space_rune chunk.
Proof.
  unfold ends_with_space.
  destruct (DecodeLastRuneInString v) as [r n] eqn:Hd. simpl. intros Hsp.
  assert (v ≠ EmptyString) as Hne.
  { intros ->. vm_compute in Hd. injection Hd as <- _. done. }
  pose proof (DecodeLast_size v r n Hne Hd) as Hsize.
  exists (take (String.length v - n) v), (drop (String.length v - n) v).
  split; [by rewrite take_drop|]. apply decodes_in_table. split.
  - intros Hnil. pose proof (length_drop (String.length v - n) v) as Hl.
    rewrite Hnil in Hl. simpl in Hl. lia.
  - exists r. rewrite length_drop.
    replace (String.length v - (String.length v - n))%nat with n by lia.
    split; [|done]. apply DecodeLast_chunk; [done..|by apply IsSpace_valid].
Qed.

(** Two ways to cut one string. *)
Lemma app_eq_app (a b c d : string) :
  a +:+ b = c +:+ d →
  (∃ m, a = c +:+ m ∧ d = m +:+ b)
  ∨ (∃ m, m ≠ EmptyString ∧ c = a +:+ m ∧ b = m +:+ d).
Proof.
  revert c. induction a as [|x a IH]; intros c H.
  - rewrite app_nil_l in H. subst b. destruct c as [|y c].
    + left. by exists EmptyString.
    + right. by exists (String y c).
  - destruct c as [|y c].
    + rewrite app_nil_l in H. subst d. left. by exists (String x a).
    + rewrite !app_cons in H. injection H as -> H.
      destruct (IH c H) as [(m & -> & ->)|(m & Hm & -> & ->)].
      * left. by exists m.
      * right. by exists m.
Qed.

Lemma at_app_l (a b : string) (i : Z) :
  0 ≤ i < len a → at_ (a +:+ b) i = at_ a i.
Proof.
  unfold at_, len. intros Hi.
  assert (∀ n, (n < String.length a)%nat →
               String.get n (a +:+ b) = String.get n a) as Hget.
  { clear. induction a as [|x a IH]; intros n Hn; simpl in Hn; [lia|].
    rewrite app_cons. destruct n as [|n]; [done|]. simpl. apply IH. lia. }
  rewrite Hget by lia. done.
Qed.

(** In the encoding of a white-space rune the first byte starts a rune and
    the others do not. *)
Lemma space_rune_first (chunk : string) :
  space_rune chunk → RuneStart (at_ chunk 0) = true.
Proof.
  intros H. unfold space_rune, White_Space in H. simpl in H.
  repeat destruct H as [<-|H]; done.
Qed.

Lemma space_rune_continuation (chunk : string) (i : Z) :
  space_rune chunk → 1 ≤ i < len chunk → RuneStart (at_ chunk i) = false.
Proof.
  intros H Hi. unfold space_rune, White_Space in H. simpl in H.
  repeat destruct H as [<-|H]; try done; unfold len in Hi; simpl in Hi;
    try lia;
    (assert (i = 1 ∨ i = 2) as [-> | ->] by lia; first [reflexivity | lia]).
Qed.

(** White space after a string that does not start with white space does
    not make it start with white space. *)
Lemma no_space_prefix_app (v post : string) :
  v ≠ EmptyString →
  (∀ chunk rest, space_rune chunk → v ≠ chunk +:+ rest) →
  Spaces post → starts_with_space (v +:+ post) = false.
Proof.
  intros Hne Hno Hpost.
  destruct (starts_with_space (v +:+ post)) eqn:Hs; [exfalso|done].
  apply starts_with_space_inv in Hs as (chunk & rest & Heq & Hc).
  apply app_eq_app in Heq as [(m & -> & _)|(m & Hm & -> & ->)].
  { by eapply Hno. }
  inversion Hpost as [Hnil|chunk' rest' Hc' Hrest' Heq'].
  { destruct m; [done|]. by rewrite app_cons in Hnil. }
  assert (0 < len v) as Hv by (by apply len_pos).
  assert (0 < len m) as Hlm by (by apply len_pos).
  assert (0 < len chunk') as Hlc
    by (apply len_pos; apply (table_decodes _ Hc')).
  pose proof (space_rune_continuation (v +:+ m) (len v) Hc) as Hcont.
  rewrite len_app in Hcont. specialize (Hcont ltac:(lia)).
  replace (len v) with (len v + 0) in Hcont by lia.
  rewrite at_app_r in Hcont by lia.
  pose proof (space_rune_first chunk' Hc') as Hfirst.
  rewrite <- (at_app_l chunk' rest') in Hfirst by lia.
  rewrite Heq', at_app_l in Hfirst by lia.
  congruence.
Qed.

(** The trimmed string is the only one that fits its description. *)
Lemma trimmed_unique (s v : string) : trimmed s v → TrimSpace s = v.
Proof.
  intros [(pre & post & -> & Hp & Hq) [Hno1 Hno2]].
  unfold TrimSpace, TrimFunc. rewrite TrimLeftFunc_Spaces by done.
  destruct v as [|c t] eqn:Hv.
  - rewrite app_nil_l, <- (app_nil_r post), TrimLeftFunc_Spaces by done.
    reflexivity.
  - rewrite <- Hv in *. assert (v ≠ EmptyString) as Hne by (by subst).
    rewrite TrimLeftFunc_stays by (by apply no_space_prefix_app).
    rewrite TrimRightFunc_Spaces by done.
    apply TrimRightFunc_stays.
    destruct (ends_with_space v) eqn:He; [|done].
    apply ends_with_space_inv in He as (init & chunk & Heq & Hc).
    by destruct (Hno2 init chunk Hc).
Qed.

Lemma TrimSpace_empty : TrimSpace EmptyString = EmptyString.
Proof. reflexivity. Qed.

End TrimFacts.

(** ** strings.Split and the line filter of ExpandPackagesNoVendor *)

Module ExpandFacts.
Import Str StrFacts strings ContainsFacts TrimFacts.

Lemma split_from_nonempty (sep : string) (skip : nat) (s : string) :
  split_from sep skip s ≠ [].
Proof.
  revert skip. induction s as [|c s IH]; intros skip; simpl; [done|].
  destruct skip; [|by apply IH].
  destruct (HasPrefix (String c s) sep); [done|].
  by destruct (split_from sep 0 s).
Qed.

Lemma Join_cons (x : string) (l : list string) (sep : string) :
  l ≠ [] → Join (x :: l) sep = x +:+ sep +:+ Join l sep.
Proof. by destruct l. Qed.

(** Splitting at line feeds gives the lines of the string: joined by line
    feeds they are the string again, and none of them holds a line feed. *)
Lemma Join_Split_LF (s : string) : Join (Split s LF) LF = s.
Proof.
  unfold Split. simpl. induction s as [|c s IH]; [done|]. simpl.
  pose proof (split_from_nonempty LF 0 s) as Hne.
  destruct (Ascii.eqb c (ascii_of_nat 10)) eqn:Hc.
  - apply Ascii.eqb_eq in Hc as ->. by rewrite Join_cons, IH.
  - destruct (split_from LF 0 s) as [|field fields]; [done|].
    destruct fields as [|field' fields].
    + simpl in *. by rewrite IH.
    + rewrite Join_cons in * by done. by rewrite app_cons, IH.
Qed.

Lemma Split_LF_lines (s : string) :
  Forall (λ line, Contains line LF = false) (Split s LF).
Proof.
  unfold Split. simpl. induction s as [|c s IH]; simpl.
  - by repeat constructor.
  - destruct (Ascii.eqb c (ascii_of_nat 10)) eqn:Hc.
    + by constructor.
    + destruct (split_from LF 0 s) as [|field fields];
        [by repeat constructor; simpl; rewrite Hc|].
      inversion IH as [|? ? Hfield Hfields]; subst.
      constructor; [|done]. rewrite Contains_unfold. simpl.
      by rewrite Hc, Hfield.
Qed.

(** A string that ends with a line feed splits into at least two fields,
    the last one empty. *)
Lemma split_from_LF_app (s : string) :
  ∃ field fields,
    split_from LF 0 (s +:+ LF) = field :: fields ++ [EmptyString].
Proof.
  induction s as [|c s (field & fields & IH)].
  - by exists EmptyString, [].
  - rewrite app_cons. simpl.
    destruct (Ascii.eqb c (ascii_of_nat 10)) eqn:Hc; rewrite IH.
    + by exists EmptyString, (field :: fields).
    + by exists (String c field), fields.
Qed.

Lemma Split_LF_app (s : string) :
  ∃ fields, Split (s +:+ LF) LF = fields ++ [EmptyString].
Proof.
  destruct (split_from_LF_app s) as (field & fields & H).
  exists (field :: fields). exact H.
Qed.

Lemma keep_non_vendor_acc (lines acc : list string) :
  fold_left (λ packages line,
               if negb (Contains line "/vendor/")
               then packages ++ [TrimSpace line]
               else packages) lines acc
  = acc ++ List.map TrimSpace (List.filter non_vendor lines).
Proof.
  revert acc. induction lines as [|l lines IH]; intros acc; simpl.
  - by rewrite List.app_nil_r.
  - rewrite IH. unfold non_vendor at 2.
    destruct (negb (Contains l "/vendor/")); simpl; [|done].
    by rewrite <- List.app_assoc.
Qed.

(** The second loop keeps the lines without the vendor segment, trimmed
    and in order. *)
Lemma keep_non_vendor_eq (lines : list string) :
  keep_non_vendor lines = List.map TrimSpace (List.filter non_vendor lines).
Proof. unfold keep_non_vendor. by rewrite keep_non_vendor_acc. Qed.

(** Trimming cannot bring a segment into a line that did not have it. *)
Lemma Contains_TrimSpace (line substr : string) :
  Contains line substr = false → Contains (TrimSpace line) substr = false.
Proof.
  intros Hl. destruct (Contains (TrimSpace line) substr) eqn:Ht; [|done].
  destruct (TrimSpace_spec line) as (pre & post & Hs & _).
  apply (Contains_embed pre _ post) in Ht. rewrite <- Hs in Ht. congruence.
Qed.

Lemma keep_non_vendor_clean (lines : list string) :
  Forall (λ p, Contains p "/vendor/" = false) (keep_non_vendor lines).
Proof.
  rewrite keep_non_vendor_eq. induction lines as [|l lines IH]; simpl.
  - constructor.
  - unfold non_vendor at 1. destruct (Contains l "/vendor/") eqn:Hl; simpl.
    + exact IH.
    + constructor; [by apply Contains_TrimSpace|exact IH].
Qed.

Lemma keep_non_vendor_snoc_empty (lines : list string) :
  keep_non_vendor (lines ++ [EmptyString])
  = keep_non_vendor lines ++ [EmptyString].
Proof.
  rewrite !keep_non_vendor_eq, List.filter_app, List.map_app. done.
Qed.

(** The first loop: some pattern holds the wildcard marker. *)
Lemma wants_expansion_acc (patterns : list string) (acc : bool) :
  fold_left (λ expand pkg, if Contains pkg "..." then true else expand)
            patterns acc
  = acc || existsb (λ pkg, Contains pkg "...") patterns.
Proof.
  revert acc. induction patterns as [|p ps IH]; intros acc; simpl.
  - by rewrite orb_false_r.
  - rewrite IH. destruct (Contains p "..."), acc; simpl; try done.
Qed.

Lemma wants_expansion_eq (patterns : list string) :
  wants_expansion patterns = existsb (λ pkg, Contains pkg "...") patterns.
Proof. unfold wants_expansion. by rewrite wants_expansion_acc. Qed.

Lemma wants_expansion_false (patterns : list string) :
  Forall (λ pkg, Contains pkg "..." = false) patterns →
  wants_expansion patterns = false.
Proof.
  rewrite wants_expansion_eq. induction 1 as [|p ps Hp _ IH]; simpl; [done|].
  by rewrite Hp, IH.
Qed.

Lemma wants_expansion_true (patterns : list string) :
  Exists (λ pkg, Contains pkg "..." = true) patterns →
  wants_expansion patterns = true.
Proof.
  rewrite wants_expansion_eq. induction 1 as [p ps Hp|p ps _ IH]; simpl.
  - by rewrite Hp.
  - by rewrite IH, orb_true_r.
Qed.

End ExpandFacts.

(** ** The library calls *)

(** Unfolding the binds of the state-and-exit monad. *)
Ltac run :=
  unfold mbind, M_bind, mret, M_ret, gets, modify, os_Exit, panic; simpl.

(** The library calls are unfolded by name, where a proof looks into them. *)
Arguments os_MkdirAll : simpl never.
Arguments os_OpenFile : simpl never.
Arguments os_Open : simpl never.
Arguments File_Close : simpl never.
Arguments File_Write : simpl never.
Arguments io_Copy : simpl never.
Arguments ioutil_ReadFile : simpl never.
Arguments start_and_wait : simpl never.
Arguments exec_Command : simpl never.

Section LibraryFacts.
Context (E : Env).

(** [exec.Command] only builds the command: the arguments are the name
    followed by the given ones, and the state is not touched. *)
Lemma exec_Command_returns (name : string) (arg : list string) (st : State) :
  ∃ cmd, exec_Command E name arg st = Return cmd st
         ∧ Args cmd = name :: arg.
Proof.
  unfold exec_Command.
  destruct (String.eqb (filepath.Base name) name); [|by eexists].
  destruct (LookPath E name st); by eexists.
Qed.

(** Starting and waiting always returns, and touches nothing but the file
    system and the list of started subprocesses, which the argument vector
    of the command joins when the process was started. *)
Lemma start_and_wait_returns (c : Cmd) (st : State) :
  ∃ r err st',
    start_and_wait E c st = Return (r, err) st'
    ∧ stdout st' = stdout st ∧ logged st' = logged st
    ∧ (started st' = started st ∨ started st' = started st ++ [argv c]).
Proof.
  unfold start_and_wait.
  destruct (refused c); [by eauto 10|].
  destruct (fault E (SysExec (Path c)) st); [by eauto 10|].
  destruct (fs st !! Path c) as [[data perm|perm]|]; [|by eauto 10..].
  destruct (executable perm); by eauto 10.
Qed.

Lemma Cmd_CombinedOutput_returns (c : Cmd) (st : State) :
  ∃ out err st', Cmd_CombinedOutput E c st = Return (out, err) st'.
Proof.
  unfold Cmd_CombinedOutput. run.
  destruct (start_and_wait_returns c st) as ([r|] & err & st' & -> & _);
    eauto.
Qed.

(** A command that can be started runs to its end. *)
Lemma start_and_wait_started (c : Cmd) (st : State) :
  can_start E c st = true →
  start_and_wait E c st
  = let r := process E (Path c) (argv c) st in
    Return (Some r, if p_code r =? 0 then None
                    else Some (ExitError (p_code r)))
           (after_process c r st).
Proof.
  unfold can_start, start_and_wait. intros H.
  destruct (refused c); [done|].
  destruct (fault E (SysExec (Path c)) st); [done|].
  destruct (fs st !! Path c) as [[data perm|perm]|]; [|done..].
  by rewrite H.
Qed.

(** One that cannot be started changes nothing, and gives the error of
    the refusal or, for a command that is not refused, the error of the
    failed [fork/exec]. *)
Lemma start_and_wait_not_started (c : Cmd) (st : State) :
  can_start E c st = false →
  ∃ e, start_and_wait E c st = Return (None, Some e) st
       ∧ (refused c = Some e
          ∨ (refused c = None
             ∧ ∃ errno, e = PathError "fork/exec" (Path c) errno)).
Proof.
  unfold can_start, start_and_wait. intros H.
  destruct (refused c); [by eauto|].
  destruct (fault E (SysExec (Path c)) st); [by eauto 8|].
  destruct (fs st !! Path c) as [[data perm|perm]|]; [|by eauto 8..].
  rewrite H. by eauto 8.
Qed.

(** Either way the streams of the process itself are not written to,
    and nothing is logged. *)
Lemma start_and_wait_streams (c : Cmd) (st : State) :
  ∃ r err st', start_and_wait E c st = Return (r, err) st'
               ∧ stdout st' = stdout st ∧ stderr st' = stderr st
               ∧ logged st' = logged st.
Proof.
  destruct (can_start E c st) eqn:Hs.
  - rewrite start_and_wait_started by done. by eauto 10.
  - destruct (start_and_wait_not_started _ _ Hs) as (e & -> & _).
    by eauto 10.
Qed.

End LibraryFacts.

(** ** ExpandPackagesNoVendor *)

Section ExpandPackagesNoVendor.
Import Str strings ExpandFacts.
Context (E : Env).

(** The listing always comes back, with its output and its error. *)
Lemma go_list_returns (patterns : list string) (st : State) :
  ∃ out err st', go_list E patterns st = Return (out, err) st'.
Proof.
  unfold go_list. run.
  destruct (exec_Command_returns E
              (filepath_Join E [runtime_GOROOT E; "bin"; "go"])
              ("list" :: patterns) st) as (cmd & -> & _).
  apply Cmd_CombinedOutput_returns.
Qed.

(** With a wildcard among the patterns, the result is decided by the
    listing: its lines without the vendor ones when it succeeds, the end of
    the process when it fails. *)
Lemma ExpandPackagesNoVendor_expand (patterns : list string) (st : State) :
  wants_expansion patterns = true →
  ExpandPackagesNoVendor E patterns st =
    match go_list E patterns st with
    | Return (out, None) st' =>
      Return (keep_non_vendor (Split out LF)) st'
    | Return (out, Some e) st' =>
      Exit 1 (set_logged
                (logged st' ++
                 [Fatalf ("package listing failed: %v" +:+ LF +:+ "%s")
                         [VError e; VString out]]) st')
    | Exit c st' => Exit c st'
    | Panic e st' => Panic e st'
    end.
Proof.
  intros Hw. unfold ExpandPackagesNoVendor, go_list. rewrite Hw. run.
  destruct (exec_Command E _ _ st) as [cmd st1| |]; [|done..].
  destruct (Cmd_CombinedOutput E cmd st1) as [[out [e|]] st2| |]; done.
Qed.

Lemma wildcard_wants_expansion (patterns : list string) :
  (∃ pkg, In pkg patterns ∧ Contains pkg "..." = true) →
  wants_expansion patterns = true.
Proof.
  intros (pkg & Hin & Hc). apply wants_expansion_true.
  apply List.Exists_exists. eauto.
Qed.

(** C2: when at least one pattern contains the wildcard marker, whatever
    the package listing prints, no package of the list that
    [ExpandPackagesNoVendor] returns contains the segment [/vendor/]; the
    only other way the call ends is the exit of the process with status 1,
    after a failed listing. *)
Theorem ExpandPackagesNoVendor_drops_vendor
    (patterns : list string) (st : State) :
  (∃ pkg, In pkg patterns ∧ Contains pkg "..." = true) →
  match ExpandPackagesNoVendor E patterns st with
  | Return packages _ =>
    Forall (λ p, Contains p "/vendor/" = false) packages
  | Exit code _ => code = 1
  | Panic _ _ => False
  end.
Proof.
  intros Hw%wildcard_wants_expansion.
  rewrite (ExpandPackagesNoVendor_expand _ _ Hw).
  destruct (go_list_returns patterns st) as (out & [e|] & st' & ->);
    [done|]. apply keep_non_vendor_clean.
Qed.

(** C4: when no pattern contains the wildcard marker,
    [ExpandPackagesNoVendor] returns its argument, the same list in the
    same order, and leaves the state of the process as it was: in
    particular no subprocess is started. *)
Theorem ExpandPackagesNoVendor_no_wildcard
    (patterns : list string) (st : State) :
  (∀ pkg, In pkg patterns → Contains pkg "..." = false) →
  ExpandPackagesNoVendor E patterns st = Return patterns st
  ∧ started (final (ExpandPackagesNoVendor E patterns st)) = started st.
Proof.
  intros Hall.
  assert (ExpandPackagesNoVendor E patterns st = Return patterns st) as ->;
    [|done].
  unfold ExpandPackagesNoVendor.
  rewrite wants_expansion_false; [done|].
  by apply List.Forall_forall.
Qed.

(** C7: for the patterns [fmt] and [pkg/...] and a listing whose combined
    output is the three lines [pkg/a], [pkg/vendor/b], [pkg/c] (no final
    newline), the result is [pkg/a], [pkg/c]. *)
Theorem ExpandPackagesNoVendor_example (st st' : State) :
  go_list E ["fmt"; "pkg/..."] st =
    Return ("pkg/a" +:+ LF +:+ "pkg/vendor/b" +:+ LF +:+ "pkg/c", None) st' →
  ExpandPackagesNoVendor E ["fmt"; "pkg/..."] st
  = Return ["pkg/a"; "pkg/c"] st'.
Proof.
  intros Hl. rewrite ExpandPackagesNoVendor_expand by reflexivity.
  rewrite Hl. reflexivity.
Qed.

(** C10: when the expansion is performed and the combined output of the
    listing ends with a newline, the returned list ends with an empty
    string: the empty last line has no vendor segment and is kept. *)
Theorem ExpandPackagesNoVendor_trailing_newline
    (patterns : list string) (out : string) (st st' : State) :
  (∃ pkg, In pkg patterns ∧ Contains pkg "..." = true) →
  go_list E patterns st = Return (out +:+ LF, None) st' →
  ∃ packages,
    ExpandPackagesNoVendor E patterns st
    = Return (packages ++ [EmptyString]) st'.
Proof.
  intros Hw%wildcard_wants_expansion Hl.
  rewrite (ExpandPackagesNoVendor_expand _ _ Hw), Hl.
  destruct (Split_LF_app out) as [fields ->].
  exists (keep_non_vendor fields). by rewrite keep_non_vendor_snoc_empty.
Qed.

(** A joined path with a directory part is used as it is. *)
Lemma exec_Command_go (patterns : list string) (st : State) :
  String.eqb (filepath.Base (go_path E)) (go_path E) = false →
  exec_Command E (go_path E) ("list" :: patterns) st
  = Return (go_cmd E patterns) st.
Proof. intros H. unfold exec_Command. by rewrite H. Qed.

(** X23: with a wildcard among the patterns and a [go] command that can
    be started, [ExpandPackagesNoVendor] starts it once, with [list] and
    all the patterns (the ones without wildcard too) as arguments.  When
    it exits with status 0 the result is made of the lines of its combined
    output, standard error included, that have no vendor segment, each
    trimmed, in the order of the output and with repetitions kept;
    otherwise the process exits with status 1 after logging the exit error
    and the combined output. *)
Theorem ExpandPackagesNoVendor_runs_go_list
    (patterns : list string) (st : State) :
  (∃ pkg, In pkg patterns ∧ Contains pkg "..." = true) →
  String.eqb (filepath.Base (go_path E)) (go_path E) = false →
  can_start E (go_cmd E patterns) st = true →
  let r := process E (go_path E) (go_path E :: "list" :: patterns) st in
  let st' := set_started (started st ++ [go_path E :: "list" :: patterns])
                         (set_fs (p_fs r) st) in
  ExpandPackagesNoVendor E patterns st
  = if p_code r =? 0
    then Return (List.map TrimSpace
                   (List.filter non_vendor (Split (p_combined r) LF))) st'
    else Exit 1 (set_logged
                   (logged st ++
                    [Fatalf ("package listing failed: %v" +:+ LF +:+ "%s")
                            [VError (ExitError (p_code r));
                             VString (p_combined r)]]) st').
Proof.
  intros Hw%wildcard_wants_expansion Hbase Hs.
  rewrite (ExpandPackagesNoVendor_expand _ _ Hw).
  unfold go_list, Cmd_CombinedOutput, mbind, M_bind.
  change (exec_Command E _ _ st)
    with (exec_Command E (go_path E) ("list" :: patterns) st).
  rewrite (exec_Command_go _ _ Hbase).
  rewrite start_and_wait_started by done. simpl.
  destruct (p_code _ =? 0); simpl; [|done].
  by rewrite keep_non_vendor_eq.
Qed.

(** The path of the [go] command is never empty, so [Start] does not
    refuse the command. *)
Lemma go_path_nonempty : go_path E ≠ EmptyString.
Proof.
  apply filepath_Join_nonempty. simpl. apply andb_false_r.
Qed.

Lemma refused_go_cmd (patterns : list string) :
  refused (go_cmd E patterns) = None.
Proof.
  unfold refused. simpl.
  destruct (String.eqb_spec (go_path E) EmptyString) as [H|H]; [|done].
  by destruct go_path_nonempty.
Qed.

(** X24: with a wildcard among the patterns and a [go] command that
    cannot be started (it is missing, not executable, or refused), the
    process exits with status 1 after logging the error of the failed
    [fork/exec] with an empty output; no subprocess was started and nothing
    else has changed. *)
Theorem ExpandPackagesNoVendor_cannot_start
    (patterns : list string) (st : State) :
  (∃ pkg, In pkg patterns ∧ Contains pkg "..." = true) →
  String.eqb (filepath.Base (go_path E)) (go_path E) = false →
  can_start E (go_cmd E patterns) st = false →
  ∃ errno,
    ExpandPackagesNoVendor E patterns st
    = Exit 1 (set_logged
                (logged st ++
                 [Fatalf ("package listing failed: %v" +:+ LF +:+ "%s")
                         [VError (PathError "fork/exec" (go_path E) errno);
                          VString EmptyString]]) st).
Proof.
  intros Hw%wildcard_wants_expansion Hbase Hs.
  rewrite (ExpandPackagesNoVendor_expand _ _ Hw).
  unfold go_list, Cmd_CombinedOutput, mbind, M_bind.
  change (exec_Command E _ _ st)
    with (exec_Command E (go_path E) ("list" :: patterns) st).
  rewrite (exec_Command_go _ _ Hbase).
  destruct (start_and_wait_not_started E _ _ Hs)
    as (e & -> & [Hl|[_ [errno ->]]]);
    [by rewrite refused_go_cmd in Hl|].
  by exists errno.
Qed.

(** X25: every package of an expansion is a line of the listing output
    that has no vendor segment, with its leading and trailing white space
    removed: no returned package starts or ends with a white-space
    rune. *)
Theorem ExpandPackagesNoVendor_packages_trimmed
    (patterns : list string) (out : string) (st st' : State) :
  (∃ pkg, In pkg patterns ∧ Contains pkg "..." = true) →
  go_list E patterns st = Return (out, None) st' →
  ∃ packages,
    ExpandPackagesNoVendor E patterns st = Return packages st'
    ∧ Forall (λ p, ∃ line, In line (Split out LF)
                           ∧ Contains line "/vendor/" = false
                           ∧ trimmed line p) packages.
Proof.
  intros Hw%wildcard_wants_expansion Hl.
  rewrite (ExpandPackagesNoVendor_expand _ _ Hw), Hl.
  eexists. split; [reflexivity|].
  rewrite keep_non_vendor_eq. apply List.Forall_forall.
  intros p (line & <- & Hin)%List.in_map_iff.
  apply List.filter_In in Hin as [Hin Hnv].
  exists line. split; [done|]. split; [|apply TrimFacts.TrimSpace_trimmed].
  unfold non_vendor in Hnv. by destruct (Contains line "/vendor/").
Qed.

(** An element of a list is a piece of the joined list. *)
Lemma Join_In (l : list string) (sep x : string) :
  In x l → ∃ a b, Join l sep = a +:+ x +:+ b.
Proof.
  induction l as [|y l IH]; [done|]. intros [->|Hin].
  - destruct l as [|z l].
    + exists EmptyString, EmptyString. simpl. by rewrite StrFacts.app_nil_r.
    + exists EmptyString, (sep +:+ Join (z :: l) sep).
      by rewrite Join_cons.
  - destruct (IH Hin) as (a & b & Heq).
    rewrite Join_cons by (by destruct l).
    exists (y +:+ sep +:+ a), b. by rewrite Heq, !StrFacts.app_assoc.
Qed.

(** No line of a text without the vendor segment has it. *)
Lemma lines_non_vendor (out : string) :
  Contains out "/vendor/" = false →
  List.filter non_vendor (Split out LF) = Split out LF.
Proof.
  intros Hout. apply forallb_filter_id, forallb_forall. intros line Hin.
  destruct (Join_In _ LF _ Hin) as (a & b & Heq).
  rewrite Join_Split_LF in Heq. unfold non_vendor.
  destruct (Contains line "/vendor/") eqn:Hl; [|done].
  apply (ContainsFacts.Contains_embed a _ b) in Hl.
  rewrite <- Heq in Hl. congruence.
Qed.

(** X26: the expansion loses nothing but vendor lines and the white
    space around lines.  When the listing output has no vendor segment and
    each of its lines is free of surrounding white space, the returned
    packages joined by line feeds are the output again. *)
Theorem ExpandPackagesNoVendor_lossless
    (patterns : list string) (out : string) (st st' : State) :
  (∃ pkg, In pkg patterns ∧ Contains pkg "..." = true) →
  go_list E patterns st = Return (out, None) st' →
  Contains out "/vendor/" = false →
  Forall (λ line, TrimSpace line = line) (Split out LF) →
  ∃ packages,
    ExpandPackagesNoVendor E patterns st = Return packages st'
    ∧ Join packages LF = out.
Proof.
  intros Hw%wildcard_wants_expansion Hl Hout Hlines.
  rewrite (ExpandPackagesNoVendor_expand _ _ Hw), Hl.
  eexists. split; [reflexivity|].
  rewrite keep_non_vendor_eq, lines_non_vendor by done.
  rewrite <- (Join_Split_LF out) at 2. f_equal.
  induction Hlines as [|line lines Hline _ IH]; [done|].
  simpl. by rewrite Hline, IH.
Qed.

(** X27: nothing that the listing prints reaches the streams of the
    process.  Its output is captured, so that, however the call ends,
    [ExpandPackagesNoVendor] has written nothing to the standard output and
    nothing directly to the standard error; all it emits is at most one
    message through package [log], the one of [log.Fatalf]. *)
Theorem ExpandPackagesNoVendor_keeps_streams
    (patterns : list string) (st : State) :
  stdout (final (ExpandPackagesNoVendor E patterns st)) = stdout st
  ∧ stderr (final (ExpandPackagesNoVendor E patterns st)) = stderr st
  ∧ (logged (final (ExpandPackagesNoVendor E patterns st)) = logged st
     ∨ ∃ format v,
         logged (final (ExpandPackagesNoVendor E patterns st))
         = logged st ++ [Fatalf format v]).
Proof.
  unfold ExpandPackagesNoVendor.
  destruct (wants_expansion patterns); [|simpl; by auto].
  unfold Cmd_CombinedOutput, log_Fatalf, mbind, M_bind.
  destruct (exec_Command_returns E
              (filepath_Join E [runtime_GOROOT E; "bin"; "go"])
              (["list"] ++ patterns) st) as (cmd & -> & _).
  destruct (start_and_wait_streams E cmd st)
    as ([r|] & [e|] & st' & -> & Hout & Herr & Hlog); run;
    (split; [done|]); (split; [done|]); rewrite Hlog; by eauto.
Qed.

End ExpandPackagesNoVendor.

(** ** GOPATH *)

Section GOPATH.

(** X7: [GOPATH] never returns the empty string.  It returns the value
    of the variable, leaving the state alone, exactly when the variable is
    set to a non-empty value; when the variable is not set, or set to the
    empty string, the process exits with status 1 after logging that
    GOPATH is not set. *)
Theorem GOPATH_never_empty (environ : gmap string string) (st : State) :
  match GOPATH environ st with
  | Return v st' =>
    v ≠ EmptyString ∧ environ !! "GOPATH" = Some v ∧ st' = st
  | Exit code st' =>
    code = 1
    ∧ (environ !! "GOPATH" = None ∨ environ !! "GOPATH" = Some EmptyString)
    ∧ st' = set_logged (logged st ++ [Fatal [VString "GOPATH is not set"]]) st
  | Panic _ _ => False
  end.
Proof.
  unfold GOPATH, os_Getenv, log_Fatal. run.
  destruct (environ !! "GOPATH") as [v|] eqn:Hv; simpl.
  - destruct (String.eqb v EmptyString) eqn:He; simpl.
    + apply String.eqb_eq in He as ->. auto.
    + apply String.eqb_neq in He. auto.
  - auto.
Qed.

End GOPATH.

(** ** VERSION *)

Section VERSION.
Import Str StrFacts utf8 unicode strings TrimFacts.
Context (E : Env).

Lemma ioutil_ReadFile_returns (filename : string) (st : State) :
  ∃ b err, ioutil_ReadFile E filename st = Return (b, err) st.
Proof.
  unfold ioutil_ReadFile.
  destruct (fault E (SysRead filename) st); [by eauto|].
  destruct (fs st !! filename) as [[data perm|perm]|]; by eauto.
Qed.

Lemma ioutil_ReadFile_file (filename data : string) (perm : Z) (st : State) :
  fault E (SysRead filename) st = None →
  fs st !! filename = Some (File data perm) →
  ioutil_ReadFile E filename st = Return (data, None) st.
Proof. intros Hf Hl. unfold ioutil_ReadFile. by rewrite Hf, Hl. Qed.

(** C5: whatever bytes the VERSION file holds, [VERSION] returns them
    with the leading and trailing white space removed (the line feed is
    white space: see [White_Space]) and the bytes in between exactly as they
    are: the content is a run of white-space runes, the result, a run of
    white-space runes, and the result neither starts nor ends with a
    white-space rune; it is the only string of which this holds.  When the
    file cannot be read the process exits with status 1, the error logged. *)
Theorem VERSION_trimmed (st : State) :
  (∀ content perm,
      fs st !! "VERSION" = Some (File content perm) →
      fault E (SysRead "VERSION") st = None →
      ∃ v, VERSION E st = Return v st
           ∧ trimmed content v
           ∧ ∀ v', trimmed content v' → v' = v)
  ∧ (∀ b err,
        ioutil_ReadFile E "VERSION" st = Return (b, Some err) st →
        VERSION E st
        = Exit 1 (set_logged (logged st ++ [Fatal [VError err]]) st)).
Proof.
  split.
  - intros content perm Hfile Hfault. exists (TrimSpace content).
    split; [|split; [apply TrimSpace_trimmed|]].
    + unfold VERSION. run.
      by rewrite (ioutil_ReadFile_file _ _ _ _ Hfault Hfile).
    + intros v' Hv'. symmetry. by apply trimmed_unique.
  - intros b err Hread. unfold VERSION. run. by rewrite Hread.
Qed.

(** A string of white space trims to the empty string. *)
Lemma trimmed_blank (s : string) : Spaces s → trimmed s EmptyString.
Proof.
  intros Hs. split; [|split].
  - exists s, EmptyString. rewrite app_nil_l, app_nil_r.
    split; [done|]. split; [done|constructor].
  - intros chunk rest [Hne _]%table_decodes Heq. destruct chunk; [done|].
    rewrite app_cons in Heq. discriminate Heq.
  - intros init chunk [Hne _]%table_decodes Heq.
    destruct init; [|rewrite app_cons in Heq; discriminate Heq].
    rewrite app_nil_l in Heq. by subst.
Qed.

(** X8: a VERSION file that holds white space only is not an error:
    [VERSION] returns the empty string. *)
Theorem VERSION_blank (content : string) (perm : Z) (st : State) :
  fs st !! "VERSION" = Some (File content perm) →
  fault E (SysRead "VERSION") st = None →
  Spaces content →
  VERSION E st = Return EmptyString st.
Proof.
  intros Hfile Hfault Hs. unfold VERSION. run.
  rewrite (ioutil_ReadFile_file _ _ _ _ Hfault Hfile). simpl.
  by rewrite (trimmed_unique _ _ (trimmed_blank _ Hs)).
Qed.

End VERSION.

(** ** MustRun *)

Section MustRun.
Import Str StrFacts strings.
Context (E : Env).

Lemma MustRun_dry (cmd : Cmd) (st : State) :
  DryRunFlag st = true →
  MustRun E cmd st
  = Return tt (set_stdout (stdout st +:+ command_line cmd) st).
Proof.
  intros Hdry. unfold MustRun, fmt_Println. run. by rewrite Hdry.
Qed.

(** C6: with the dry-run flag set, [MustRun] returns after printing one
    line on standard output, the marker [>>>] and the arguments of the
    command (the program name first) joined by single spaces, which is the
    line it prints before running the command when the flag is not set;
    nothing else of the state changes: no subprocess is started and the file
    system is as before. *)
Theorem MustRun_dry_run (cmd : Cmd) (st : State) :
  DryRunFlag st = true →
  MustRun E cmd st
  = Return tt (set_stdout
                 (stdout st +:+ ">>> " +:+ Join (Args cmd) " " +:+ LF) st)
  ∧ started (final (MustRun E cmd st)) = started st
  ∧ fs (final (MustRun E cmd st)) = fs st.
Proof.
  intros Hdry. by rewrite (MustRun_dry cmd st Hdry).
Qed.

(** X5: with the dry-run flag set, [MustRunCommand] prints the marker,
    the program name as given and the arguments, and returns with nothing
    else changed, whether the program exists or not: a failed lookup is
    neither reported nor logged. *)
Theorem MustRunCommand_dry_run (name : string) (args : list string)
      (st : State) :
  DryRunFlag st = true →
  MustRunCommand E name args st
  = Return tt (set_stdout
                 (stdout st +:+ ">>> " +:+ Join (name :: args) " " +:+ LF)
                 st).
Proof.
  intros Hdry. unfold MustRunCommand. run.
  destruct (exec_Command_returns E name args st) as (c & -> & Hargs).
  rewrite (MustRun_dry c st Hdry). unfold command_line. by rewrite Hargs.
Qed.

(** X1: whatever the flag and however the call ends, what [MustRun]
    adds to the standard output of the process begins with the line of the
    command; nothing of the subprocess comes before it. *)
Theorem MustRun_prints_first (cmd : Cmd) (st : State) :
  ∃ rest, stdout (final (MustRun E cmd st))
          = (stdout st +:+ command_line cmd) +:+ rest.
Proof.
  unfold MustRun, fmt_Println. run.
  destruct (DryRunFlag st); simpl.
  { exists EmptyString. by rewrite app_nil_r. }
  unfold Cmd_Run. run.
  match goal with
  | |- context [start_and_wait E ?c ?s] =>
    destruct (start_and_wait_returns E c s)
      as ([r|] & err & st' & -> & Hout & _)
  end; simpl in Hout.
  - exists (p_stdout r). destruct err; simpl; by rewrite Hout.
  - exists EmptyString. rewrite app_nil_r. destruct err; simpl; by rewrite Hout.
Qed.

(** X2: for a command with arguments, [MustRun] starts at most one
    subprocess, and its argument vector is the one that was printed. *)
Theorem MustRun_starts_what_it_prints (cmd : Cmd) (st : State) :
  Args cmd ≠ [] →
  started (final (MustRun E cmd st)) = started st
  ∨ started (final (MustRun E cmd st)) = started st ++ [Args cmd].
Proof.
  intros Hargs. unfold MustRun, fmt_Println. run.
  destruct (DryRunFlag st); simpl; [by left|].
  unfold Cmd_Run. run.
  match goal with
  | |- context [start_and_wait E ?c ?s] =>
    destruct (start_and_wait_returns E c s)
      as (r & err & st' & -> & _ & _ & Hst)
  end.
  assert (argv (set_Stdout OsStdout (set_Stderr OsStderr cmd)) = Args cmd)
    as Hargv by (unfold argv; simpl; by destruct (Args cmd)).
  rewrite Hargv in Hst. simpl in Hst.
  destruct r as [r|], err as [e|]; simpl; exact Hst.
Qed.

Lemma argv_writers (w1 w2 : Writer) (cmd : Cmd) :
  argv (set_Stdout w1 (set_Stderr w2 cmd)) = argv cmd.
Proof. reflexivity. Qed.

(** X3: without the dry-run flag, a command that can be started is run
    once, after its line was printed.  Whatever writers the command came
    with, the standard output of the subprocess follows the printed line
    on the standard output of the process and its standard error goes to
    the standard error of the process.  [MustRun] returns when the
    subprocess exits with status 0; otherwise the process exits with
    status 1 after logging the exit error. *)
Theorem MustRun_runs_command (cmd : Cmd) (st : State) :
  DryRunFlag st = false →
  can_start E cmd (announced cmd st) = true →
  let r := process E (Path cmd) (argv cmd) (announced cmd st) in
  let st' := set_stderr (stderr st +:+ p_stderr r)
               (set_stdout ((stdout st +:+ command_line cmd) +:+ p_stdout r)
                  (after_process cmd r st)) in
  MustRun E cmd st
  = if p_code r =? 0 then Return tt st'
    else Exit 1 (fatal (ExitError (p_code r)) st').
Proof.
  intros Hdry Hstart. unfold MustRun, fmt_Println, Cmd_Run. run.
  rewrite Hdry. simpl.
  change (set_stdout _ st) with (announced cmd st).
  rewrite start_and_wait_started by exact Hstart.
  simpl. rewrite argv_writers.
  change (Path (set_Stdout OsStdout (set_Stderr OsStderr cmd)))
    with (Path cmd).
  by destruct (p_code _ =? 0).
Qed.

(** X4: without the dry-run flag, a command that cannot be started
    ends the process with status 1: the line has been printed, the error
    is logged, and nothing else has changed.  The error is the one of
    [Start]: for a command that was started before, that it was already
    started; else the lookup error recorded in the command; else, for an
    empty path, that there is no command; else the [*os.PathError] of the
    failed [fork/exec]. *)
Theorem MustRun_cannot_start (cmd : Cmd) (st : State) :
  DryRunFlag st = false →
  can_start E cmd (announced cmd st) = false →
  ∃ e, MustRun E cmd st = Exit 1 (fatal e (announced cmd st))
       ∧ match Process cmd, lookPathErr cmd with
         | Some _, _ => e = ErrorString "exec: already started"
         | None, Some e' => e = e'
         | None, None =>
           if String.eqb (Path cmd) EmptyString
           then e = ErrorString "exec: no command"
           else ∃ errno, e = PathError "fork/exec" (Path cmd) errno
         end.
Proof.
  intros Hdry Hstart. unfold MustRun, fmt_Println, Cmd_Run. run.
  rewrite Hdry. simpl.
  change (set_stdout _ st) with (announced cmd st).
  destruct (start_and_wait_not_started E
              (set_Stdout OsStdout (set_Stderr OsStderr cmd))
              (announced cmd st) Hstart) as (e & -> & He).
  exists e. split; [done|].
  unfold refused in He. simpl in He.
  destruct (Process cmd), (lookPathErr cmd),
    (String.eqb (Path cmd) EmptyString);
    destruct He as [He|[He Herr]]; by simplify_eq.
Qed.

(** X6: without the dry-run flag, [MustRunCommand] with a bare program
    name that the search path does not have prints the line, logs the
    lookup error (an [*exec.Error] around [exec.ErrNotFound]) and ends the
    process with status 1; nothing is started. *)
Theorem MustRunCommand_unknown_program
    (name : string) (args : list string) (st : State) :
  filepath.Base name = name →
  LookPath E name st = None →
  DryRunFlag st = false →
  MustRunCommand E name args st
  = Exit 1 (fatal (ExecError name ErrNotFound)
              (set_stdout
                 (stdout st +:+ ">>> " +:+ Join (name :: args) " " +:+ LF)
                 st)).
Proof.
  intros Hbase Hlook Hdry. unfold MustRunCommand, exec_Command. run.
  rewrite Hbase, String.eqb_refl, Hlook.
  unfold MustRun, fmt_Println, Cmd_Run, start_and_wait. run.
  by rewrite Hdry.
Qed.

End MustRun.

(** ** RunGit *)

Section RunGit.
Import Str strings.
Context (E : Env).

(** The git path has directories in it, so [exec.Command] does no lookup
    and records no lookup error. *)
Lemma exec_Command_git (args : list string) (st : State) :
  exec_Command E git args st
  = Return (mkCmd git (git :: args) Discard Discard None None) st.
Proof. reflexivity. Qed.

(** [Run] never returns the variable [exec.ErrNotFound] itself for a
    command that [exec.Command] made: a failed lookup comes wrapped in an
    [*exec.Error], a failed start is an [*os.PathError], a failed process
    an [*exec.ExitError]. *)
Lemma Cmd_Run_not_ErrNotFound (c : Cmd) (st : State) :
  lookPathErr c ≠ Some ErrNotFound →
  ∃ out errout err st',
    Cmd_Run E c st = Return (out, errout, err) st'
    ∧ is_ErrNotFound err = false
    ∧ warnedAboutGit st' = warnedAboutGit st
    ∧ logged st' = logged st.
Proof.
  intros Hlook. unfold Cmd_Run, start_and_wait. run.
  destruct (refused c) as [e|] eqn:Hr.
  { exists EmptyString, EmptyString, (Some e), st.
    repeat split; try done. unfold refused in Hr.
    destruct (Process c), (lookPathErr c) as [e'|],
      (String.eqb (Path c) EmptyString); simplify_eq; try done.
    all: by destruct e. }
  destruct (fault E (SysExec (Path c)) st); [by repeat eexists|].
  destruct (fs st !! Path c) as [[data perm|perm]|]; [|by repeat eexists..].
  destruct (executable perm); [|by repeat eexists].
  unfold deliver.
  destruct (Stdout c), (Stderr c); run; repeat eexists; by case_match.
Qed.

(** X9: the branch of [RunGit] that warns and returns the empty string
    is never taken: however the call ends, the variable [warnedAboutGit]
    is as it was and no warning line has been logged. *)
Theorem RunGit_never_warns (args : list string) (st : State) :
  warnedAboutGit (final (RunGit E args st)) = warnedAboutGit st
  ∧ ∀ v, In (Println v) (logged (final (RunGit E args st))) →
         In (Println v) (logged st).
Proof.
  destruct (Cmd_Run_not_ErrNotFound (git_cmd args) st)
    as (out & errout & err & st' & Hrun & Hnf & Hw & Hlog); [done|].
  unfold RunGit, mbind, M_bind. rewrite exec_Command_git.
  change (set_Stderr Buffer (set_Stdout Buffer _)) with (git_cmd args).
  rewrite Hrun, Hnf.
  destruct err as [e|]; simpl; unfold log_Fatal; run.
  - split; [done|]. intros v. rewrite Hlog, List.in_app_iff. simpl.
    intros [H|[H|[]]]; [done|discriminate H].
  - split; [done|]. intros v. by rewrite Hlog.
Qed.

(** C1 fails on the code: when the git binary is not found, that is,
    there is no file at its path, [RunGit] does not warn and return the
    empty string; it logs the failed command with [log.Fatal] and the
    process exits with status 1.  The error of the failed start is an
    [*os.PathError] and not the variable [exec.ErrNotFound] that [RunGit]
    compares it with. *)
Theorem RunGit_missing_git_exits (args : list string) (st : State) :
  fs st !! git = None →
  ∃ errno,
    RunGit E args st
    = Exit 1 (set_logged
                (logged st ++
                 [Fatal [VString (Join (git :: args) " "); VString ": ";
                         VError (PathError "fork/exec" git errno);
                         VString LF; VString EmptyString]]) st).
Proof.
  intros Hmissing. unfold RunGit, Cmd_Run, start_and_wait, log_Fatal. run.
  destruct (fault E (SysExec git) st) as [errno|]; [by exists errno|].
  rewrite Hmissing. by exists ENOENT.
Qed.

(** X10: nothing that git prints reaches the streams of the process.
    Both streams of git go to buffers, so that, however the call ends,
    [RunGit] has written nothing to the standard output and nothing
    directly to the standard error; all it emits is at most one message
    through package [log], the one of [log.Fatal]. *)
Theorem RunGit_keeps_streams (args : list string) (st : State) :
  stdout (final (RunGit E args st)) = stdout st
  ∧ stderr (final (RunGit E args st)) = stderr st
  ∧ (logged (final (RunGit E args st)) = logged st
     ∨ ∃ v, logged (final (RunGit E args st)) = logged st ++ [Fatal v]).
Proof.
  unfold RunGit, Cmd_Run, log_Fatal, mbind, M_bind.
  rewrite exec_Command_git.
  change (set_Stderr Buffer (set_Stdout Buffer _)) with (git_cmd args).
  destruct (can_start E (git_cmd args) st) eqn:Hs.
  - rewrite start_and_wait_started by done. simpl.
    destruct (p_code _ =? 0); simpl; by eauto.
  - destruct (start_and_wait_not_started E _ _ Hs)
      as (e & -> & [Hl|[_ [errno ->]]]); [discriminate Hl|].
    simpl. by eauto.
Qed.

(** X11: when git can be started, [RunGit] runs it once with the given
    arguments.  If it exits with status 0 the result is its standard
    output with the leading and trailing white space removed, and its
    standard error is dropped; otherwise the process exits with status 1
    after logging the command line, the exit error and the standard error
    of git, and the standard output of git is dropped. *)
Theorem RunGit_runs_git (args : list string) (st : State) :
  can_start E (git_cmd args) st = true →
  let r := process E git (git :: args) st in
  let st' := set_started (started st ++ [git :: args]) (set_fs (p_fs r) st) in
  RunGit E args st
  = (if p_code r =? 0 then Return (TrimSpace (p_stdout r)) st'
     else Exit 1 (set_logged
                    (logged st ++
                     [Fatal [VString (Join (git :: args) " "); VString ": ";
                             VError (ExitError (p_code r)); VString LF;
                             VString (p_stderr r)]]) st'))
  ∧ trimmed (p_stdout r) (TrimSpace (p_stdout r)).
Proof.
  intros Hs. split; [|apply TrimFacts.TrimSpace_trimmed].
  unfold RunGit, Cmd_Run, log_Fatal, mbind, M_bind.
  rewrite exec_Command_git.
  change (set_Stderr Buffer (set_Stdout Buffer _)) with (git_cmd args).
  rewrite start_and_wait_started by done. simpl.
  by destruct (p_code _ =? 0).
Qed.

End RunGit.

(** ** The file-system calls *)

Section FileFacts.
Context (E : Env).

Lemma set_fs_same (st : State) : set_fs (fs st) st = st.
Proof. by destruct st. Qed.

(** [os.MkdirAll] returns, and leaves every entry that existed as it
    was; what it adds are directories; it touches nothing but the file
    system. *)
Lemma os_MkdirAll_spec (path : string) (perm : Z) (st : State) :
  ∃ err fs',
    os_MkdirAll E path perm st = Return err (set_fs fs' st)
    ∧ fs st ⊆ fs'
    ∧ ∀ k, fs st !! k = None →
           fs' !! k = None ∨ fs' !! k = Some (Dir (made_mode E perm)).
Proof.
  unfold os_MkdirAll. generalize (made_mode E perm). intros m.
  assert (∀ l, fs st ⊆ foldr (add_dir m) (fs st) l
               ∧ ∀ k, fs st !! k = None →
                      foldr (add_dir m) (fs st) l !! k = None
                      ∨ foldr (add_dir m) (fs st) l !! k
                        = Some (Dir m)) as Hsub.
  { induction l as [|d l [IH1 IH2]]; [by auto|].
    change (foldr (add_dir m) (fs st) (d :: l))
      with (add_dir m d (foldr (add_dir m) (fs st) l)).
    unfold add_dir at 1 3 5.
    destruct (foldr (add_dir m) (fs st) l !! d) eqn:Hd; [by auto|]. split.
    - etrans; [exact IH1|]. by apply insert_subseteq.
    - intros k Hk. destruct (decide (d = k)) as [->|Hne].
      + right. by rewrite lookup_insert_eq.
      + rewrite lookup_insert_ne by done. by apply IH2. }
  destruct (Hsub (mkdir_created E path st)) as [H1 H2].
  destruct (fault E (SysMkdirAll path) st); eauto.
Qed.

Lemma next_fd_free (st : State) : fds st !! next_fd st = None.
Proof. apply not_elem_of_dom. exact (is_fresh (dom (fds st))). Qed.

(** Exclusive creation fails on a path that exists, and changes nothing. *)
Lemma os_OpenFile_excl_exists (name : string) (perm : Z) (st : State)
      (n : node) :
  fs st !! name = Some n →
  ∃ errno,
    os_OpenFile E name (Z.lor (Z.lor O_CREATE O_WRONLY) O_EXCL) perm st
    = Return (None, Some (PathError "open" name errno)) st.
Proof.
  intros Hn. unfold os_OpenFile.
  destruct (fault E _ st) as [errno|]; [by eauto|].
  rewrite Hn. by exists EEXIST.
Qed.

(** Opening with [O_CREATE|O_WRONLY|O_TRUNC] either fails and changes
    nothing, or leaves an empty regular file at the path (created with the
    given mode less the mask, or an existing one emptied) and one more open
    descriptor. *)
Lemma os_OpenFile_trunc (name : string) (perm : Z) (st : State) :
  (∃ e, os_OpenFile E name (Z.lor (Z.lor O_CREATE O_WRONLY) O_TRUNC) perm st
        = Return (None, Some e) st)
  ∨ (∃ p,
       os_OpenFile E name (Z.lor (Z.lor O_CREATE O_WRONLY) O_TRUNC) perm st
       = Return (Some (next_fd st), None)
           (set_fds (<[next_fd st := name]> (fds st))
              (set_fs (<[name := File EmptyString p]> (fs st)) st))
       ∧ ((fs st !! name = None ∧ p = created_mode E perm)
          ∨ ∃ data, fs st !! name = Some (File data p))).
Proof.
  unfold os_OpenFile.
  destruct (fault E _ st) as [errno|]; [by left; eauto|].
  destruct (fs st !! name) as [[data p|p]|] eqn:Hn; simpl.
  - right. exists p. split; [done|]. right. by exists data.
  - left. by eauto.
  - right. exists (created_mode E perm). split; [done|]. by left.
Qed.

(** [os.Open] either fails and changes nothing, or adds a descriptor. *)
Lemma os_Open_cases (name : string) (st : State) :
  (∃ e, os_Open E name st = Return (None, Some e) st)
  ∨ os_Open E name st
    = Return (Some (next_fd st), None)
        (set_fds (<[next_fd st := name]> (fds st)) st).
Proof.
  unfold os_Open, os_OpenFile.
  destruct (fault E _ st) as [errno|]; [by left; eauto|].
  destruct (fs st !! name) as [[data p|p]|] eqn:Hn; simpl; eauto.
Qed.

(** A source that does not exist cannot be opened. *)
Lemma os_Open_missing (name : string) (st : State) :
  fs st !! name = None →
  ∃ errno, os_Open E name st
           = Return (None, Some (PathError "open" name errno)) st.
Proof.
  intros Hn. unfold os_Open, os_OpenFile.
  destruct (fault E _ st) as [errno|]; [by eauto|].
  rewrite Hn. by exists ENOENT.
Qed.

Lemma File_Write_spec (f : option nat) (b : string) (st : State) :
  ∃ err fs', File_Write E f b st = Return err (set_fs fs' st).
Proof.
  unfold File_Write. destruct f as [fd|].
  - destruct (fds st !! fd) as [name|].
    + destruct (fault E (SysWrite fd) st).
      * eexists _, (fs st). by rewrite set_fs_same.
      * destruct (fs st !! name) as [[data p|p]|].
        -- by eauto.
        -- eexists _, (fs st). by rewrite set_fs_same.
        -- eexists _, (fs st). by rewrite set_fs_same.
    + eexists _, (fs st). by rewrite set_fs_same.
  - eexists _, (fs st). by rewrite set_fs_same.
Qed.

(** [io.Copy] returns and touches nothing but the file system. *)
Lemma io_Copy_spec (dst src : option nat) (st : State) :
  ∃ n err fs', io_Copy E dst src st = Return (n, err) (set_fs fs' st).
Proof.
  unfold io_Copy.
  destruct (source_of src st) as [[data p|p]|].
  - destruct (match copy_fault E st with
              | Some (n, e) => (Nat.min n (String.length data), Some e)
              | None => (String.length data, None)
              end) as [n stop].
    destruct (File_Write_spec dst (Str.take n data) st) as ([e|] & fs' & ->);
      by eauto.
  - eexists _, _, (fs st). by rewrite set_fs_same.
  - eexists _, _, (fs st). by rewrite set_fs_same.
Qed.

(** Closing an open descriptor releases it. *)
Lemma File_Close_open (fd : nat) (name : string) (st : State) :
  fds st !! fd = Some name →
  ∃ err, File_Close E (Some fd) st
         = Return err (set_fds (delete fd (fds st)) st).
Proof.
  intros Hfd. unfold File_Close. rewrite Hfd.
  destruct (fault E (SysClose fd) st); by eauto.
Qed.

(** Exclusive creation either fails and changes nothing, or makes an
    empty regular file with the given mode less the mask at a path where
    nothing was, and one more open descriptor. *)
Lemma os_OpenFile_excl (name : string) (perm : Z) (st : State) :
  (∃ e, os_OpenFile E name create_excl perm st = Return (None, Some e) st)
  ∨ (fs st !! name = None
     ∧ os_OpenFile E name create_excl perm st
       = Return (Some (next_fd st), None)
           (set_fds (<[next_fd st := name]> (fds st))
              (set_fs (<[name := File EmptyString (created_mode E perm)]>
                         (fs st)) st))).
Proof.
  unfold os_OpenFile.
  destruct (fault E _ st) as [errno|]; [by left; eauto|].
  destruct (fs st !! name) as [n|] eqn:Hn; simpl; [by left; eauto|].
  by right.
Qed.

(** Writing through an open handle on a regular file appends to it, or
    fails and changes nothing. *)
Lemma File_Write_open (fd : nat) (name b data : string) (p : Z) (st : State) :
  fds st !! fd = Some name →
  fs st !! name = Some (File data p) →
  (∃ e, File_Write E (Some fd) b st = Return (Some e) st)
  ∨ File_Write E (Some fd) b st
    = Return None (set_fs (<[name := File (data +:+ b) p]> (fs st)) st).
Proof.
  intros Hfd Hn. unfold File_Write. rewrite Hfd, Hn.
  destruct (fault E (SysWrite fd) st); by eauto.
Qed.

(** [Execute] on an open handle on a regular file: the write fails and
    nothing changes, or the text is appended and the error of the
    execution, if any, comes back. *)
Lemma Template_Execute_open (tpl : Template E) (x : Data E) (fd : nat)
      (name data : string) (p : Z) (st : State) :
  fds st !! fd = Some name →
  fs st !! name = Some (File data p) →
  (∃ e, Template_Execute E tpl (Some fd) x st = Return (Some e) st)
  ∨ Template_Execute E tpl (Some fd) x st
    = Return (template_Execute E tpl x).2
        (set_fs (<[name := File (data +:+ (template_Execute E tpl x).1) p]>
                   (fs st)) st).
Proof.
  intros Hfd Hn. unfold Template_Execute.
  destruct (template_Execute E tpl x) as [text err]. run.
  destruct (File_Write_open fd name text data p st Hfd Hn) as [[e Hw]|Hw];
    rewrite Hw; [by left; eauto|by right].
Qed.

(** A copy without error wrote all the bytes of the source file. *)
Lemma io_Copy_ok (d s : nat) (dname sname : string) (k : Z) (st st' : State) :
  fds st !! d = Some dname →
  fds st !! s = Some sname →
  io_Copy E (Some d) (Some s) st = Return (k, None) st' →
  ∃ data q old p,
    fs st !! sname = Some (File data q)
    ∧ fs st !! dname = Some (File old p)
    ∧ st' = set_fs (<[dname := File (old +:+ data) p]> (fs st)) st.
Proof.
  intros Hd Hs. unfold io_Copy, source_of. rewrite Hs.
  destruct (fs st !! sname) as [[data q|q]|] eqn:Hsrc; [|done..].
  destruct (copy_fault E st) as [[n e]|].
  { unfold File_Write. rewrite Hd.
    destruct (fault E (SysWrite d) st); [done|].
    by destruct (fs st !! dname) as [[old p|p]|]. }
  rewrite StrFacts.take_all by lia.
  unfold File_Write. rewrite Hd.
  destruct (fault E (SysWrite d) st); [done|].
  destruct (fs st !! dname) as [[old p|p]|] eqn:Hdst; [|done..].
  intros [= <- <-]. by exists data, q, old, p.
Qed.

End FileFacts.

(** ** Render and RenderString *)

Section Render.
Context (E : Env).

(** On an output path that exists, [render] ends the process with status
    1 before anything is written; every entry of the file system is as it
    was. *)
Lemma render_existing (tpl : Template E) (outputFile : string)
      (outputPerm : Z) (x : Data E) (st : State) (n : node) :
  fs st !! outputFile = Some n →
  ∃ st', render E tpl outputFile outputPerm x st = Exit 1 st'
         ∧ fs st ⊆ fs st'.
Proof.
  intros Hn. unfold render, mbind, M_bind.
  destruct (os_MkdirAll_spec E (filepath_Dir E outputFile) 0x1ED st)
    as (err & fs' & -> & Hsub & _).
  destruct err as [e|]; simpl.
  { eexists. split; [reflexivity|done]. }
  destruct (os_OpenFile_excl_exists E outputFile outputPerm (set_fs fs' st) n)
    as [errno ->]; [by eapply lookup_weaken|].
  simpl. eexists. split; [reflexivity|done].
Qed.

Lemma template_Must_cases (r : option (Template E) * option error)
      (st : State) :
  (∃ t, template_Must E r st = Return t st)
  ∨ (∃ e, template_Must E r st = Panic e st).
Proof. destruct r as [[t|] [e|]]; simpl; eauto. Qed.

Lemma Render_existing (templateFile outputFile : string) (outputPerm : Z)
      (x : Data E) (st : State) (n : node) :
  fs st !! outputFile = Some n →
  returns (Render E templateFile outputFile outputPerm x st) = false
  ∧ fs st ⊆ fs (final (Render E templateFile outputFile outputPerm x st)).
Proof.
  intros Hn. unfold Render, template_ParseFiles, mbind, M_bind.
  destruct (ioutil_ReadFile_returns E templateFile st) as (b & [e|] & ->);
    simpl; [done|].
  destruct (template_Must_cases
              (template_Parse E (filepath.Base templateFile) b) st)
    as [[t ->]|[e ->]]; [|done].
  by destruct (render_existing t outputFile outputPerm x st n Hn)
    as (st' & -> & Hsub).
Qed.

Lemma RenderString_existing (templateContent outputFile : string)
      (outputPerm : Z) (x : Data E) (st : State) (n : node) :
  fs st !! outputFile = Some n →
  returns (RenderString E templateContent outputFile outputPerm x st) = false
  ∧ fs st ⊆ fs (final (RenderString E templateContent outputFile outputPerm
                                    x st)).
Proof.
  intros Hn. unfold RenderString, mbind, M_bind.
  destruct (template_Must_cases
              (template_Parse E EmptyString templateContent) st)
    as [[t ->]|[e ->]]; [|done].
  by destruct (render_existing t outputFile outputPerm x st n Hn)
    as (st' & -> & Hsub).
Qed.

(** C3: when the output path exists, [Render] (template from a file) and
    [RenderString] (template from a string) both end the process, by the
    exit with status 1 or by the panic of a template that does not parse,
    and neither overwrites the existing file: the entry at the output
    path, like every entry that existed, is unchanged.  This holds for every
    template and every data value, so for the same ones given to both. *)
Theorem Render_keeps_existing_output
    (templateFile templateContent outputFile : string) (outputPerm : Z)
    (x : Data E) (st : State) (n : node) :
  fs st !! outputFile = Some n →
  (returns (Render E templateFile outputFile outputPerm x st) = false
   ∧ fs st ⊆ fs (final (Render E templateFile outputFile outputPerm x st))
   ∧ fs (final (Render E templateFile outputFile outputPerm x st))
       !! outputFile = Some n)
  ∧ (returns (RenderString E templateContent outputFile outputPerm x st)
     = false
     ∧ fs st ⊆ fs (final
                     (RenderString E templateContent outputFile outputPerm
                                   x st))
     ∧ fs (final (RenderString E templateContent outputFile outputPerm x st))
         !! outputFile = Some n).
Proof.
  intros Hn.
  destruct (Render_existing templateFile outputFile outputPerm x st n Hn)
    as [Hr Hsub].
  destruct (RenderString_existing templateContent outputFile outputPerm x st
              n Hn) as [Hr' Hsub'].
  repeat split; try done; by eapply lookup_weaken.
Qed.

(** The ways [render] ends, with the file system each one leaves: the
    process exits before the output exists, or with the output created and
    still open, or after the text was written and the handle closed; or
    [render] returns with the text in the output and the handle closed.
    [fs1] is the file system with the directories made. *)
Lemma render_cases (tpl : Template E) (outputFile : string) (outputPerm : Z)
      (x : Data E) (st : State) :
  ∃ fs1,
    fs st ⊆ fs1
    ∧ (∀ k, fs st !! k = None →
            fs1 !! k = None ∨ ∃ p, fs1 !! k = Some (Dir p))
    ∧ ((∃ e, render E tpl outputFile outputPerm x st
             = Exit 1 (fatal e (set_fs fs1 st)))
       ∨ (fs1 !! outputFile = None
          ∧ fds st !! next_fd st = None
          ∧ ((∃ e text,
                 render E tpl outputFile outputPerm x st
                 = Exit 1 (fatal e
                     (set_fds (<[next_fd st := outputFile]> (fds st))
                        (set_fs (<[outputFile :=
                                     File text (created_mode E outputPerm)]>
                                   fs1) st))))
             ∨ (template_Execute E tpl x).2 = None
               ∧ ((∃ e, render E tpl outputFile outputPerm x st
                        = Exit 1 (fatal e
                            (set_fs (<[outputFile :=
                                         File (template_Execute E tpl x).1
                                              (created_mode E outputPerm)]>
                                       fs1) st)))
                  ∨ render E tpl outputFile outputPerm x st
                    = Return tt
                        (set_fs (<[outputFile :=
                                     File (template_Execute E tpl x).1
                                          (created_mode E outputPerm)]>
                                   fs1) st))))).
Proof.
  unfold render, mbind, M_bind.
  destruct (os_MkdirAll_spec E (filepath_Dir E outputFile) 0x1ED st)
    as (err & fs1 & -> & Hsub & Hnew).
  exists fs1. split; [done|]. split.
  { intros k Hk. destruct (Hnew k Hk) as [H|H]; by eauto. }
  destruct err as [e|]; simpl; [by left; eauto|].
  change (Z.lor (Z.lor O_CREATE O_WRONLY) O_EXCL) with create_excl.
  destruct (os_OpenFile_excl E outputFile outputPerm (set_fs fs1 st))
    as [[e ->]|[Hnone ->]]; simpl; [by left; eauto|].
  right. split; [exact Hnone|].
  change (next_fd (set_fs fs1 st)) with (next_fd st).
  pose proof (next_fd_free st) as Hfree. split; [exact Hfree|].
  set (fd := next_fd st) in *.
  set (st2 := set_fds _ _).
  assert (fds st2 !! fd = Some outputFile) as Hfd by apply lookup_insert_eq.
  assert (fs st2 !! outputFile
          = Some (File EmptyString (created_mode E outputPerm))) as Hout
    by apply lookup_insert_eq.
  destruct (Template_Execute_open E tpl x fd outputFile EmptyString
              (created_mode E outputPerm) st2 Hfd Hout)
    as [[e ->]| ->]; simpl.
  { left. by exists e, EmptyString. }
  rewrite StrFacts.app_nil_l.
  destruct (template_Execute E tpl x) as [text [e|]]; simpl.
  { left. exists e, text. unfold st2. simpl. by rewrite insert_insert_eq. }
  right. split; [done|].
  set (st3 := set_fs _ st2).
  assert (fds st3 !! fd = Some outputFile) as Hfd3 by exact Hfd.
  destruct (File_Close_open E fd outputFile st3 Hfd3) as [err ->].
  assert (set_fds (delete fd (fds st3)) st3
          = set_fs (<[outputFile := File text (created_mode E outputPerm)]>
                      fs1) st) as ->.
  { unfold st3, st2. simpl. rewrite insert_insert_eq, delete_insert_eq.
    rewrite delete_id by done. by destruct st. }
  destruct err as [e|]; simpl; [by left; eauto|by right].
Qed.

(** However [render] ends, every entry that existed is as it was. *)
Lemma render_keeps (tpl : Template E) (outputFile : string) (outputPerm : Z)
      (x : Data E) (st : State) :
  fs st ⊆ fs (final (render E tpl outputFile outputPerm x st)).
Proof.
  destruct (render_cases tpl outputFile outputPerm x st)
    as (fs1 & Hsub & _
        & [[e ->]|(Hnone & _ & [(e & text & ->)|[_ [[e ->]| ->]]])]);
    simpl; try done;
    (etrans; [exact Hsub|by apply insert_subseteq]).
Qed.

(** When [render] returns, the output did not exist before and holds the
    text of the template now; its handle is closed. *)
Lemma render_returns (tpl : Template E) (outputFile : string) (outputPerm : Z)
      (x : Data E) (st st' : State) :
  render E tpl outputFile outputPerm x st = Return tt st' →
  ∃ text,
    template_Execute E tpl x = (text, None)
    ∧ fs st !! outputFile = None
    ∧ fs st' !! outputFile = Some (File text (created_mode E outputPerm))
    ∧ fds st' = fds st
    ∧ fs st ⊆ fs st'.
Proof.
  intros Hr.
  destruct (render_cases tpl outputFile outputPerm x st)
    as (fs1 & Hsub & _
        & [[e H]|(Hnone & _ & [(e & text & H)|[Hex [[e H]| H]]])]);
    rewrite Hr in H; try discriminate H.
  injection H as ->.
  destruct (template_Execute E tpl x) as [text err]. simpl in *. subst err.
  exists text. split; [done|]. split.
  { destruct (fs st !! outputFile) as [n|] eqn:Hn; [|done].
    by rewrite (lookup_weaken _ _ _ _ Hn Hsub) in Hnone. }
  split; [by apply lookup_insert_eq|]. split; [done|].
  etrans; [exact Hsub|by apply insert_subseteq].
Qed.

Lemma template_Must_returns (r : option (Template E) * option error)
      (t : Template E) (st st' : State) :
  template_Must E r st = Return t st' → r = (Some t, None) ∧ st' = st.
Proof. destruct r as [[t'|] [e|]]; simpl; try done. by intros [= -> ->]. Qed.

(** X12: [Render] and [RenderString] never change or remove an entry
    that exists, whatever the arguments and however the call ends. *)
Theorem Render_never_overwrites
    (templateFile templateContent outputFile : string) (outputPerm : Z)
    (x : Data E) (st : State) :
  fs st ⊆ fs (final (Render E templateFile outputFile outputPerm x st))
  ∧ fs st ⊆ fs (final (RenderString E templateContent outputFile outputPerm
                                    x st)).
Proof.
  split.
  - unfold Render, template_ParseFiles, mbind, M_bind.
    destruct (ioutil_ReadFile_returns E templateFile st) as (b & [e|] & ->);
      simpl; [done|].
    destruct (template_Must_cases
                (template_Parse E (filepath.Base templateFile) b) st)
      as [[t ->]|[e ->]]; [|done].
    apply render_keeps.
  - unfold RenderString, mbind, M_bind.
    destruct (template_Must_cases
                (template_Parse E EmptyString templateContent) st)
      as [[t ->]|[e ->]]; [|done].
    apply render_keeps.
Qed.

(** X13: [Render] with a template file that does not exist panics with
    the error of the failed open, through [template.Must] and not through
    [log.Fatal]; the state is untouched: no directory is made and no output
    created. *)
Theorem Render_missing_template
    (templateFile outputFile : string) (outputPerm : Z) (x : Data E)
    (st : State) :
  fs st !! templateFile = None →
  ∃ errno,
    Render E templateFile outputFile outputPerm x st
    = Panic (PathError "open" templateFile errno) st.
Proof.
  intros Hn. unfold Render, template_ParseFiles, ioutil_ReadFile. run.
  destruct (fault E (SysRead templateFile) st) as [errno|]; [by eauto|].
  rewrite Hn. by eauto.
Qed.

(** X14: when [Render] returns, the template file was a regular file
    whose content parsed, executing the template on the data gave no
    error, the output path was free, and the output is now a regular file
    that holds exactly the text of the execution; its mode is the
    requested one less the bits of the file mode creation mask.  The
    handle is closed and every entry that existed is unchanged. *)
Theorem Render_writes_output
    (templateFile outputFile : string) (outputPerm : Z) (x : Data E)
    (st st' : State) :
  Render E templateFile outputFile outputPerm x st = Return tt st' →
  ∃ b p tpl text,
    fs st !! templateFile = Some (File b p)
    ∧ template_Parse E (filepath.Base templateFile) b = (Some tpl, None)
    ∧ template_Execute E tpl x = (text, None)
    ∧ fs st !! outputFile = None
    ∧ fs st' !! outputFile
      = Some (File text (Z.ldiff (syscallMode outputPerm) (umask E)))
    ∧ fds st' = fds st
    ∧ fs st ⊆ fs st'.
Proof.
  unfold Render, template_ParseFiles, ioutil_ReadFile, mbind, M_bind.
  destruct (fault E (SysRead templateFile) st); [done|].
  destruct (fs st !! templateFile) as [[b p|p]|] eqn:Hf; [|done..].
  simpl.
  destruct (template_Must E _ st) as [tpl st1| |] eqn:Hm; [|done..].
  apply template_Must_returns in Hm as [Hparse ->].
  intros (text & H)%render_returns. by exists b, p, tpl, text.
Qed.

(** X15: when [RenderString] returns, the template string parsed (under
    the empty name), executing it on the data gave no error, the output
    path was free, and the output is now a regular file that holds exactly
    the text of the execution; its mode is the requested one less the bits
    of the file mode creation mask.  The handle is closed and every entry
    that existed is unchanged. *)
Theorem RenderString_writes_output
    (templateContent outputFile : string) (outputPerm : Z) (x : Data E)
    (st st' : State) :
  RenderString E templateContent outputFile outputPerm x st = Return tt st' →
  ∃ tpl text,
    template_Parse E EmptyString templateContent = (Some tpl, None)
    ∧ template_Execute E tpl x = (text, None)
    ∧ fs st !! outputFile = None
    ∧ fs st' !! outputFile
      = Some (File text (Z.ldiff (syscallMode outputPerm) (umask E)))
    ∧ fds st' = fds st
    ∧ fs st ⊆ fs st'.
Proof.
  unfold RenderString, mbind, M_bind.
  destruct (template_Must E _ st) as [tpl st1| |] eqn:Hm; [|done..].
  apply template_Must_returns in Hm as [Hparse ->].
  intros (text & H)%render_returns. by exists tpl, text.
Qed.

(** X16: rendering is not repeatable.  After a [Render] that returned,
    a second [Render] or [RenderString] to the same output, with whatever
    template, mode and data, does not return, and the output of the first
    one is still there. *)
Theorem Render_not_repeatable
    (templateFile outputFile : string) (outputPerm : Z) (x : Data E)
    (st st' : State)
    (templateFile2 templateContent2 : string) (outputPerm2 : Z)
    (x2 : Data E) :
  Render E templateFile outputFile outputPerm x st = Return tt st' →
  (returns (Render E templateFile2 outputFile outputPerm2 x2 st') = false
   ∧ fs (final (Render E templateFile2 outputFile outputPerm2 x2 st'))
       !! outputFile = fs st' !! outputFile)
  ∧ (returns (RenderString E templateContent2 outputFile outputPerm2 x2 st')
     = false
     ∧ fs (final (RenderString E templateContent2 outputFile outputPerm2 x2
                               st'))
         !! outputFile = fs st' !! outputFile).
Proof.
  intros Hr.
  assert (∃ n, fs st' !! outputFile = Some n) as [n Hout].
  { revert Hr. unfold Render, template_ParseFiles, mbind, M_bind.
    destruct (ioutil_ReadFile_returns E templateFile st) as (b & [e|] & ->);
      simpl; [done|].
    destruct (template_Must_cases
                (template_Parse E (filepath.Base templateFile) b) st)
      as [[t ->]|[e ->]]; [|done].
    intros (text & _ & _ & H & _)%render_returns. by eauto. }
  destruct (Render_existing templateFile2 outputFile outputPerm2 x2 st' _
              Hout) as [Hr2 Hsub].
  destruct (RenderString_existing templateContent2 outputFile outputPerm2 x2
              st' _ Hout) as [Hr' Hsub'].
  rewrite Hout.
  repeat split; try done; by eapply lookup_weaken.
Qed.

(** X17: when the output was created and executing the template then
    fails, the process exits with status 1 and leaves the output behind: a
    regular file that did not exist before the call, holding what was
    written before the failure, and its handle still open. *)
Theorem RenderString_failed_execute
    (templateContent outputFile : string) (outputPerm : Z) (x : Data E)
    (st st1 st2 st3 : State) (tpl : Template E) (fd : nat) (e : error) :
  template_Parse E EmptyString templateContent = (Some tpl, None) →
  os_MkdirAll E (filepath_Dir E outputFile) 0x1ED st = Return None st1 →
  os_OpenFile E outputFile create_excl outputPerm st1
  = Return (Some fd, None) st2 →
  Template_Execute E tpl (Some fd) x st2 = Return (Some e) st3 →
  RenderString E templateContent outputFile outputPerm x st
  = Exit 1 (fatal e st3)
  ∧ fs st !! outputFile = None
  ∧ (∃ text p, fs (fatal e st3) !! outputFile = Some (File text p))
  ∧ fds st !! fd = None
  ∧ fds (fatal e st3) !! fd = Some outputFile.
Proof.
  intros Hparse Hmk Hopen Hex.
  split.
  { unfold RenderString, render, mbind, M_bind. rewrite Hparse. simpl.
    rewrite Hmk. simpl.
    change (Z.lor (Z.lor O_CREATE O_WRONLY) O_EXCL) with create_excl.
    rewrite Hopen. simpl. by rewrite Hex. }
  destruct (os_MkdirAll_spec E (filepath_Dir E outputFile) 0x1ED st)
    as (err & fs1 & Hmk' & Hsub & _).
  rewrite Hmk in Hmk'. injection Hmk' as <- ->.
  destruct (os_OpenFile_excl E outputFile outputPerm (set_fs fs1 st))
    as [[e' H]|[Hnone H]]; rewrite Hopen in H; [discriminate H|].
  injection H as -> ->. simpl in Hnone.
  change (next_fd (set_fs fs1 st)) with (next_fd st) in *.
  set (st2 := set_fds _ _) in *.
  assert (fds st2 !! next_fd st = Some outputFile) as Hfd
    by apply lookup_insert_eq.
  assert (fs st2 !! outputFile
          = Some (File EmptyString (created_mode E outputPerm))) as Hout
    by apply lookup_insert_eq.
  split.
  { destruct (fs st !! outputFile) as [n|] eqn:Hn; [|done].
    by rewrite (lookup_weaken _ _ _ _ Hn Hsub) in Hnone. }
  destruct (Template_Execute_open E tpl x _ _ _ _ st2 Hfd Hout)
    as [[e' H]|H]; rewrite Hex in H.
  - injection H as -> ->. split; [by eauto|].
    split; [apply next_fd_free|exact Hfd].
  - injection H as _ ->. split.
    + eexists _, _. simpl. apply lookup_insert_eq.
    + split; [apply next_fd_free|exact Hfd].
Qed.

End Render.

(** ** CopyFile *)

Section CopyFile.
Context (E : Env).

(** The exit paths of [CopyFile], one by one.  A failed call ends the
    process on the spot through [log.Fatal]: the deferred calls are not
    run.  They run when the copy went through. *)
Lemma CopyFile_mkdir_fails (dst src : string) (mode : Z) (st st1 : State)
      (e : error) :
  os_MkdirAll E (filepath_Dir E dst) 0x1ED st = Return (Some e) st1 →
  CopyFile E dst src mode st = Exit 1 (fatal e st1).
Proof. intros H1. unfold CopyFile, mbind, M_bind. by rewrite H1. Qed.

Lemma CopyFile_dest_fails (dst src : string) (mode : Z) (st st1 st2 : State)
      (destFile : option nat) (e : error) :
  os_MkdirAll E (filepath_Dir E dst) 0x1ED st = Return None st1 →
  os_OpenFile E dst create_trunc mode st1 = Return (destFile, Some e) st2 →
  CopyFile E dst src mode st = Exit 1 (fatal e st2).
Proof.
  intros H1 H2. unfold CopyFile, mbind, M_bind. rewrite H1. simpl.
  unfold create_trunc in H2. by rewrite H2.
Qed.

Lemma CopyFile_source_fails (dst src : string) (mode : Z)
      (st st1 st2 st3 : State) (destFile srcFile : option nat) (e : error) :
  os_MkdirAll E (filepath_Dir E dst) 0x1ED st = Return None st1 →
  os_OpenFile E dst create_trunc mode st1 = Return (destFile, None) st2 →
  os_Open E src st2 = Return (srcFile, Some e) st3 →
  CopyFile E dst src mode st = Exit 1 (fatal e st3).
Proof.
  intros H1 H2 H3. unfold CopyFile, defer, mbind, M_bind. rewrite H1. simpl.
  unfold create_trunc in H2. rewrite H2. simpl. by rewrite H3.
Qed.

Lemma CopyFile_copy_fails (dst src : string) (mode : Z)
      (st st1 st2 st3 st4 : State) (destFile srcFile : option nat)
      (k : Z) (e : error) :
  os_MkdirAll E (filepath_Dir E dst) 0x1ED st = Return None st1 →
  os_OpenFile E dst create_trunc mode st1 = Return (destFile, None) st2 →
  os_Open E src st2 = Return (srcFile, None) st3 →
  io_Copy E destFile srcFile st3 = Return (k, Some e) st4 →
  CopyFile E dst src mode st = Exit 1 (fatal e st4).
Proof.
  intros H1 H2 H3 H4. unfold CopyFile, defer, mbind, M_bind.
  rewrite H1. simpl. unfold create_trunc in H2. rewrite H2. simpl.
  rewrite H3. simpl. by rewrite H4.
Qed.

Lemma CopyFile_copied (dst src : string) (mode : Z)
      (st st1 st2 st3 st4 st5 st6 : State) (destFile srcFile : option nat)
      (k : Z) (e5 e6 : option error) :
  os_MkdirAll E (filepath_Dir E dst) 0x1ED st = Return None st1 →
  os_OpenFile E dst create_trunc mode st1 = Return (destFile, None) st2 →
  os_Open E src st2 = Return (srcFile, None) st3 →
  io_Copy E destFile srcFile st3 = Return (k, None) st4 →
  File_Close E srcFile st4 = Return e5 st5 →
  File_Close E destFile st5 = Return e6 st6 →
  CopyFile E dst src mode st = Return tt st6.
Proof.
  intros H1 H2 H3 H4 H5 H6. unfold CopyFile, defer, mbind, M_bind.
  rewrite H1. simpl. unfold create_trunc in H2. rewrite H2. simpl.
  rewrite H3. simpl. rewrite H4. simpl. rewrite H5. simpl. by rewrite H6.
Qed.

(** C9: [CopyFile] creates or truncates the destination before it
    opens the source.  When the directory and the destination were opened
    and opening the source fails, the process exits with status 1, and the
    destination is by then an empty regular file: it was so already when
    the source was tried ([st2]), and is so at the exit; a destination that
    did not exist has been created, one that existed has lost its content
    and kept its mode. *)
Theorem CopyFile_source_open_fails
    (dst src : string) (mode : Z) (st st1 st2 st3 : State)
    (destFile srcFile : option nat) (e : error) :
  os_MkdirAll E (filepath_Dir E dst) 0x1ED st = Return None st1 →
  os_OpenFile E dst create_trunc mode st1 = Return (destFile, None) st2 →
  os_Open E src st2 = Return (srcFile, Some e) st3 →
  CopyFile E dst src mode st = Exit 1 (fatal e st3)
  ∧ (∃ p, fs st2 !! dst = Some (File EmptyString p)
          ∧ fs (fatal e st3) !! dst = Some (File EmptyString p))
  ∧ (fs st !! dst = None →
     ∃ p, fs (fatal e st3) !! dst = Some (File EmptyString p))
  ∧ (∀ data p, fs st !! dst = Some (File data p) →
               fs (fatal e st3) !! dst = Some (File EmptyString p)).
Proof.
  intros H1 H2 H3.
  split; [by eapply CopyFile_source_fails|].
  destruct (os_MkdirAll_spec E (filepath_Dir E dst) 0x1ED st)
    as (err & fs1 & Hmk & Hsub & Hnew).
  rewrite H1 in Hmk. injection Hmk as <- ->.
  unfold create_trunc in H2.
  destruct (os_OpenFile_trunc E dst mode (set_fs fs1 st))
    as [[e' Hopen]|(p & Hopen & Hp)];
    rewrite H2 in Hopen; [discriminate Hopen|].
  injection Hopen as -> ->.
  match type of H3 with
  | os_Open _ _ ?s2 = _ =>
    destruct (os_Open_cases E src s2) as [[e' Hsrc]|Hsrc]
  end;
    rewrite H3 in Hsrc; [|discriminate Hsrc].
  injection Hsrc as -> -> ->. simpl.
  assert (<[dst:=File EmptyString p]> fs1 !! dst = Some (File EmptyString p))
    as Hdst by apply lookup_insert_eq.
  split; [by exists p|]. simpl in Hp. split.
  - intros _. by exists p.
  - intros data q Hsome. pose proof (lookup_weaken _ _ _ _ Hsome Hsub) as Hk.
    destruct Hp as [[Hnone _]|[data' Hdata]]; [by rewrite Hnone in Hk|].
    rewrite Hdata in Hk. injection Hk as _ ->. done.
Qed.

(** The descriptors of [CopyFile]: the table is as before when it
    returns; when it does not, a destination that was opened is still open
    at the exit, and so is a source that was opened. *)
Lemma CopyFile_descriptors (dst src : string) (mode : Z) (st : State) :
  (∀ st', CopyFile E dst src mode st = Return tt st' → fds st' = fds st)
  ∧ (∀ st1 st2 d,
        os_MkdirAll E (filepath_Dir E dst) 0x1ED st = Return None st1 →
        os_OpenFile E dst create_trunc mode st1 = Return (Some d, None) st2 →
        returns (CopyFile E dst src mode st) = false →
        fds st !! d = None
        ∧ fds (final (CopyFile E dst src mode st)) !! d = Some dst
        ∧ ∀ s st3,
            os_Open E src st2 = Return (Some s, None) st3 →
            fds st !! s = None
            ∧ fds (final (CopyFile E dst src mode st)) !! s = Some src).
Proof.
  destruct (os_MkdirAll_spec E (filepath_Dir E dst) 0x1ED st)
    as (err & fs1 & Hmk & _).
  set (st1 := set_fs fs1 st) in *.
  destruct err as [e|].
  { rewrite (CopyFile_mkdir_fails _ _ _ _ _ _ Hmk). split; [done|].
    intros ? ? ? H. rewrite Hmk in H. discriminate H. }
  destruct (os_OpenFile_trunc E dst mode st1) as [[e Hdst]|(p & Hdst & _)].
  { rewrite (CopyFile_dest_fails _ _ _ _ _ _ _ _ Hmk Hdst). split; [done|].
    intros ? ? ? H H'. rewrite Hmk in H. injection H as <-.
    unfold create_trunc in H'. rewrite Hdst in H'. discriminate H'. }
  set (d := next_fd st1) in *.
  set (st2 := set_fds _ _) in Hdst.
  assert (fds st !! d = None) as Hd by apply (next_fd_free st1).
  assert (fds st2 !! d = Some dst) as Hd2 by apply lookup_insert_eq.
  assert (∀ st1' st2' d',
             os_MkdirAll E (filepath_Dir E dst) 0x1ED st = Return None st1' →
             os_OpenFile E dst create_trunc mode st1'
             = Return (Some d', None) st2' →
             st2' = st2 ∧ d' = d) as Hsame.
  { intros ? ? ? H H'. rewrite Hmk in H. injection H as <-.
    unfold create_trunc in H'. rewrite Hdst in H'. by injection H' as <- <-. }
  destruct (os_Open_cases E src st2) as [[e Hsrc]|Hsrc].
  { rewrite (CopyFile_source_fails _ _ _ _ _ _ _ _ _ _ Hmk Hdst Hsrc).
    split; [done|]. intros ? ? ? H H' _.
    destruct (Hsame _ _ _ H H') as [-> ->]. split; [done|]. split; [done|].
    intros s st3 Hs. rewrite Hsrc in Hs. discriminate Hs. }
  set (s := next_fd st2) in *.
  set (st3 := set_fds _ st2) in Hsrc.
  assert (fds st2 !! s = None) as Hs2 by apply (next_fd_free st2).
  assert (s ≠ d) as Hsd by (intros Heq; rewrite Heq in Hs2; congruence).
  assert (fds st !! s = None) as Hs0.
  { unfold st2 in Hs2. simpl in Hs2.
    by rewrite lookup_insert_ne in Hs2 by done. }
  destruct (io_Copy_spec E (Some d) (Some s) st3) as (k & err & fs4 & Hcp).
  set (st4 := set_fs fs4 st3) in *.
  assert (fds st4 !! s = Some src) as Hs4 by apply lookup_insert_eq.
  assert (fds st4 !! d = Some dst) as Hd4.
  { unfold st4, st3. simpl. by rewrite lookup_insert_ne by done. }
  destruct err as [e|].
  { rewrite (CopyFile_copy_fails _ _ _ _ _ _ _ _ _ _ _ _ Hmk Hdst Hsrc Hcp).
    split; [done|]. intros ? ? ? H H' _.
    destruct (Hsame _ _ _ H H') as [-> ->]. split; [done|]. split; [done|].
    intros s' st3' Hs. rewrite Hsrc in Hs. by injection Hs as <- <-. }
  destruct (File_Close_open E s src st4 Hs4) as [e5 Hc5].
  set (st5 := set_fds _ st4) in Hc5.
  assert (fds st5 = fds st2) as Hfds5.
  { unfold st5, st4, st3. simpl. rewrite delete_insert_eq.
    by apply delete_id. }
  assert (fds st5 !! d = Some dst) as Hd5 by (by rewrite Hfds5).
  destruct (File_Close_open E d dst st5 Hd5) as [e6 Hc6].
  rewrite (CopyFile_copied _ _ _ _ _ _ _ _ _ _ _ _ _ _ _
             Hmk Hdst Hsrc Hcp Hc5 Hc6).
  split; [|done].
  intros st' [= <-]. change (delete d (fds st5) = fds st).
  rewrite Hfds5. unfold st2. simpl.
  rewrite delete_insert_eq. by apply delete_id.
Qed.

(** C8, amended: both handles are released when [CopyFile] returns: the
    table of open descriptors is then as before the call.  On the exit
    paths after the destination was opened the deferred calls do not run:
    the process exits with the destination handle still open, and with the
    source handle still open when the source had been opened too.  When
    making the directory fails, or opening the destination, the process
    exits with no handle opened: the table of open descriptors is as
    before the call. *)
Theorem CopyFile_handles (dst src : string) (mode : Z) (st : State) :
  (∀ st', CopyFile E dst src mode st = Return tt st' → fds st' = fds st)
  ∧ (∀ e st1,
        os_MkdirAll E (filepath_Dir E dst) 0x1ED st = Return (Some e) st1 →
        CopyFile E dst src mode st = Exit 1 (fatal e st1)
        ∧ fds (fatal e st1) = fds st)
  ∧ (∀ st1 st2 destFile e,
        os_MkdirAll E (filepath_Dir E dst) 0x1ED st = Return None st1 →
        os_OpenFile E dst create_trunc mode st1
        = Return (destFile, Some e) st2 →
        CopyFile E dst src mode st = Exit 1 (fatal e st2)
        ∧ fds (fatal e st2) = fds st)
  ∧ (∀ st1 st2 d,
        os_MkdirAll E (filepath_Dir E dst) 0x1ED st = Return None st1 →
        os_OpenFile E dst create_trunc mode st1 = Return (Some d, None) st2 →
        returns (CopyFile E dst src mode st) = false →
        fds st !! d = None
        ∧ fds (final (CopyFile E dst src mode st)) !! d = Some dst
        ∧ ∀ s st3,
            os_Open E src st2 = Return (Some s, None) st3 →
            fds st !! s = None
            ∧ fds (final (CopyFile E dst src mode st)) !! s = Some src).
Proof.
  destruct (CopyFile_descriptors dst src mode st) as [Hret Hopen].
  split; [exact Hret|]. split; [|split; [|exact Hopen]].
  - intros e st1 Hmk. split; [by eapply CopyFile_mkdir_fails|].
    destruct (os_MkdirAll_spec E (filepath_Dir E dst) 0x1ED st)
      as (err & fs1 & H & _).
    rewrite Hmk in H. by injection H as _ ->.
  - intros st1 st2 destFile e Hmk Hdst.
    split; [by eapply CopyFile_dest_fails|].
    destruct (os_MkdirAll_spec E (filepath_Dir E dst) 0x1ED st)
      as (err & fs1 & H & _).
    rewrite Hmk in H. injection H as _ ->.
    destruct (os_OpenFile_trunc E dst mode (set_fs fs1 st))
      as [[e' H]|(p & H & _)];
      unfold create_trunc in Hdst; rewrite Hdst in H; [|discriminate H].
    by injection H as _ _ ->.
Qed.

(** The ways [CopyFile] ends: the process exits, or [CopyFile] returns
    with the bytes that the source had once the destination was emptied in
    the destination. *)
Lemma CopyFile_cases (dst src : string) (mode : Z) (st : State) :
  ∃ fs1,
    fs st ⊆ fs1
    ∧ (∀ k, fs st !! k = None →
            fs1 !! k = None ∨ fs1 !! k = Some (Dir (made_mode E 0x1ED)))
    ∧ ((∃ st', CopyFile E dst src mode st = Exit 1 st')
       ∨ (∃ p data q,
             ((fs1 !! dst = None ∧ p = created_mode E mode)
              ∨ ∃ old, fs1 !! dst = Some (File old p))
             ∧ <[dst := File EmptyString p]> fs1 !! src = Some (File data q)
             ∧ CopyFile E dst src mode st
               = Return tt (set_fs (<[dst := File data p]> fs1) st))).
Proof.
  destruct (os_MkdirAll_spec E (filepath_Dir E dst) 0x1ED st)
    as (err & fs1 & Hmk & Hsub & Hnew).
  exists fs1. split; [done|]. split; [done|].
  set (st1 := set_fs fs1 st) in *.
  destruct err as [e|].
  { rewrite (CopyFile_mkdir_fails _ _ _ _ _ _ Hmk). left. by eauto. }
  destruct (os_OpenFile_trunc E dst mode st1) as [[e Hdst]|(p & Hdst & Hp)].
  { rewrite (CopyFile_dest_fails _ _ _ _ _ _ _ _ Hmk Hdst). left. by eauto. }
  set (d := next_fd st1) in *.
  set (st2 := set_fds _ _) in Hdst.
  assert (fds st !! d = None) as Hd by apply (next_fd_free st1).
  assert (fds st2 !! d = Some dst) as Hd2 by apply lookup_insert_eq.
  destruct (os_Open_cases E src st2) as [[e Hsrc]|Hsrc].
  { rewrite (CopyFile_source_fails _ _ _ _ _ _ _ _ _ _ Hmk Hdst Hsrc).
    left. by eauto. }
  set (s := next_fd st2) in *.
  set (st3 := set_fds _ st2) in Hsrc.
  assert (fds st2 !! s = None) as Hs2 by apply (next_fd_free st2).
  assert (s ≠ d) as Hsd by (intros Heq; rewrite Heq in Hs2; congruence).
  assert (fds st3 !! s = Some src) as Hs3 by apply lookup_insert_eq.
  assert (fds st3 !! d = Some dst) as Hd3.
  { unfold st3. simpl. by rewrite lookup_insert_ne by done. }
  destruct (io_Copy_spec E (Some d) (Some s) st3) as (k & err & fs4 & Hcp).
  destruct err as [e|].
  { rewrite (CopyFile_copy_fails _ _ _ _ _ _ _ _ _ _ _ _ Hmk Hdst Hsrc Hcp).
    left. by eauto. }
  destruct (io_Copy_ok E d s dst src k st3 _ Hd3 Hs3 Hcp)
    as (data & q & old & p' & Hfsrc & Hfdst & Hst4).
  assert (old = EmptyString ∧ p' = p) as [-> ->].
  { unfold st3, st2 in Hfdst. simpl in Hfdst.
    rewrite lookup_insert_eq in Hfdst. by injection Hfdst as <- <-. }
  rewrite StrFacts.app_nil_l in Hst4. rewrite Hst4 in Hcp.
  set (st4 := set_fs _ st3) in *.
  assert (fds st4 !! s = Some src) as Hs4 by exact Hs3.
  destruct (File_Close_open E s src st4 Hs4) as [e5 Hc5].
  set (st5 := set_fds _ st4) in Hc5.
  assert (fds st5 = fds st2) as Hfds5.
  { unfold st5, st4, st3. simpl. rewrite delete_insert_eq.
    by apply delete_id. }
  assert (fds st5 !! d = Some dst) as Hd5 by (by rewrite Hfds5).
  destruct (File_Close_open E d dst st5 Hd5) as [e6 Hc6].
  rewrite (CopyFile_copied _ _ _ _ _ _ _ _ _ _ _ _ _ _ _
             Hmk Hdst Hsrc Hcp Hc5 Hc6).
  right. exists p, data, q. split; [exact Hp|]. split; [exact Hfsrc|].
  f_equal. unfold st5, st4, st3, st2, st1. simpl.
  rewrite insert_insert_eq, delete_insert_eq, (delete_id _ s) by done.
  rewrite delete_insert_eq, delete_id by done. by destruct st.
Qed.

(** X21: copying a file onto itself loses its content.  The destination
    is emptied before the source is read, so when [CopyFile] returns for
    a source path that is the destination path, the file is empty. *)
Theorem CopyFile_onto_itself
    (path : string) (mode : Z) (st st' : State) :
  CopyFile E path path mode st = Return tt st' →
  ∃ p, fs st' !! path = Some (File EmptyString p).
Proof.
  intros Hr.
  destruct (CopyFile_cases path path mode st)
    as (fs1 & Hsub & Hnew & [[st'' H]|(p & data & q & Hp & Hsrc & H)]);
    rewrite Hr in H; [discriminate H|].
  injection H as ->. rewrite lookup_insert_eq in Hsrc.
  injection Hsrc as <- <-. exists p. apply lookup_insert_eq.
Qed.

End CopyFile.

(** ** The theorems at work on the sample machine *)

Section Witnesses.
Import Str strings.

Import Sample.

Lemma ExpandPackagesNoVendor_drops_vendor_witness :
  (∃ pkg, In pkg patterns ∧ Contains pkg "..." = true)
  ∧ match ExpandPackagesNoVendor env0 patterns machine with
    | Return packages _ =>
      Forall (λ p, Contains p "/vendor/" = false) packages
    | Exit code _ => code = 1
    | Panic _ _ => False
    end.
Proof.
  assert (∃ pkg, In pkg patterns ∧ Contains pkg "..." = true) as H.
  { exists "pkg/...". split; [simpl; auto|reflexivity]. }
  split; [exact H|].
  exact (ExpandPackagesNoVendor_drops_vendor env0 patterns machine H).
Defined.

Lemma ExpandPackagesNoVendor_no_wildcard_witness :
  ExpandPackagesNoVendor env0 ["fmt"; "./cmd/geth"] machine
  = Return ["fmt"; "./cmd/geth"] machine.
Proof.
  apply (ExpandPackagesNoVendor_no_wildcard env0 ["fmt"; "./cmd/geth"]
           machine).
  intros pkg [<-|[<-|[]]]; reflexivity.
Defined.

Lemma ExpandPackagesNoVendor_example_witness :
  ExpandPackagesNoVendor env0 patterns machine
  = Return ["pkg/a"; "pkg/c"]
      (set_started [["/usr/lib/go/bin/go"; "list"; "fmt"; "pkg/..."]]
                   machine).
Proof.
  apply (ExpandPackagesNoVendor_example env0 machine).
  vm_compute. reflexivity.
Defined.

Lemma ExpandPackagesNoVendor_trailing_newline_witness :
  ∃ packages,
    ExpandPackagesNoVendor (env (listing +:+ LF) 0) patterns
                           machine
    = Return (packages ++ [EmptyString])
        (set_started [["/usr/lib/go/bin/go"; "list"; "fmt"; "pkg/..."]]
                     machine).
Proof.
  apply (ExpandPackagesNoVendor_trailing_newline
           (env (listing +:+ LF) 0) patterns listing
           machine).
  - exists "pkg/...". split; [simpl; auto|reflexivity].
  - vm_compute. reflexivity.
Defined.

Lemma VERSION_trimmed_witness :
  VERSION env0 machine = Return "1.8.17" machine
  ∧ trimmed ("1.8.17" +:+ LF) "1.8.17"
  ∧ ∀ v', trimmed ("1.8.17" +:+ LF) v' → v' = "1.8.17".
Proof.
  destruct (VERSION_trimmed env0 machine) as [H _].
  destruct (H ("1.8.17" +:+ LF) 0x1A4 eq_refl eq_refl) as (v & Hv & Ht).
  assert (VERSION env0 machine = Return "1.8.17" machine) as Hrun
    by (vm_compute; reflexivity).
  rewrite Hrun in Hv. injection Hv as <-.
  split; [reflexivity|exact Ht].
Defined.

Lemma MustRun_dry_run_witness :
  MustRun env0
    (mkCmd "/usr/lib/go/bin/go" ["go"; "build"; "./..."] Discard Discard None
           None)
    dry
  = Return tt (set_stdout (">>> go build ./..." +:+ LF) dry).
Proof.
  destruct (MustRun_dry_run env0
              (mkCmd "/usr/lib/go/bin/go" ["go"; "build"; "./..."]
                     Discard Discard None None) dry) as (H & _ & _);
    [reflexivity|].
  exact H.
Defined.

Lemma RunGit_missing_git_exits_witness :
  fs machine !! git = None
  ∧ returns (RunGit env0 ["rev-parse"; "HEAD"] machine) = false.
Proof.
  assert (fs machine !! git = None) as H by (vm_compute; reflexivity).
  split; [exact H|].
  destruct (RunGit_missing_git_exits env0 ["rev-parse"; "HEAD"]
              machine H) as [errno ->].
  reflexivity.
Defined.

Lemma Render_keeps_existing_output_witness :
  fs (final (Render env0 "build/deb.rules" "VERSION" 0x1A4 tt machine))
     !! "VERSION" = Some (File ("1.8.17" +:+ LF) 0x1A4)
  ∧ fs (final (RenderString env0 "{{.Version}}" "VERSION" 0x1A4 tt
                            machine))
       !! "VERSION" = Some (File ("1.8.17" +:+ LF) 0x1A4).
Proof.
  destruct (Render_keeps_existing_output env0 "build/deb.rules" "{{.Version}}"
              "VERSION" 0x1A4 tt machine
              (File ("1.8.17" +:+ LF) 0x1A4))
    as [(_ & _ & H1) (_ & _ & H2)]; [vm_compute; reflexivity|].
  split; [exact H1|exact H2].
Defined.

Lemma CopyFile_source_open_fails_witness :
  CopyFile env0 "out/deb.rules" "build/missing" 0x1B6 machine
  = Exit 1 (fatal (PathError "open" "build/missing" ENOENT) copying)
  ∧ fs machine !! "out/deb.rules" = None
  ∧ (∃ p, fs copying !! "out/deb.rules" = Some (File EmptyString p))
  ∧ fs copying !! "out/deb.rules" = Some (File EmptyString 0x1A4).
Proof.
  destruct (CopyFile_source_open_fails env0 "out/deb.rules" "build/missing"
              0x1B6 machine with_out copying copying (Some 0%nat) None
              (PathError "open" "build/missing" ENOENT))
    as (H & _ & Hnew & _); [vm_compute; reflexivity..|].
  assert (fs machine !! "out/deb.rules" = None) as Hnone
    by (vm_compute; reflexivity).
  split; [exact H|]. split; [exact Hnone|]. split; [exact (Hnew Hnone)|].
  vm_compute. reflexivity.
Defined.

Lemma CopyFile_handles_witness :
  fds (final (CopyFile env0 "out/deb.rules" "build/deb.rules" 0x1A4
                       machine))
  = fds machine
  ∧ (CopyFile env0 "out" "build/deb.rules" 0x1A4 with_out
     = Exit 1 (fatal (PathError "open" "out" EISDIR)
                 (final (os_MkdirAll env0 "." 0x1ED with_out)))
     ∧ fds (fatal (PathError "open" "out" EISDIR)
              (final (os_MkdirAll env0 "." 0x1ED with_out)))
       = fds with_out).
Proof.
  destruct (CopyFile_handles env0 "out/deb.rules" "build/deb.rules" 0x1A4
              machine) as [H _].
  split; [apply H; vm_compute; reflexivity|].
  destruct (CopyFile_handles env0 "out" "build/deb.rules" 0x1A4 with_out)
    as (_ & _ & H' & _).
  apply (H' (final (os_MkdirAll env0 "." 0x1ED with_out))
            (final (os_MkdirAll env0 "." 0x1ED with_out)) None
            (PathError "open" "out" EISDIR));
    vm_compute; reflexivity.
Defined.

(** C8 as stated does not hold: when the source is missing, the process
    exits with the destination still open as descriptor 0. *)
Lemma CopyFile_exit_leaves_destination_open :
  CopyFile env0 "out/deb.rules" "build/missing" 0x1A4 machine
  = Exit 1 (fatal (PathError "open" "build/missing" ENOENT) copying)
  ∧ fds machine !! 0%nat = None
  ∧ fds (fatal (PathError "open" "build/missing" ENOENT) copying) !! 0%nat
    = Some "out/deb.rules".
Proof. vm_compute. auto. Qed.

Lemma MustRun_starts_what_it_prints_witness :
  Args go_version ≠ []
  ∧ (started (final (MustRun env0 go_version machine)) = started machine
     ∨ started (final (MustRun env0 go_version machine))
       = started machine ++ [["go"; "version"]]).
Proof.
  assert (Args go_version ≠ []) as H by discriminate.
  split; [exact H|].
  exact (MustRun_starts_what_it_prints env0 go_version machine H).
Defined.

Lemma MustRun_runs_command_witness :
  MustRun env0 go_version machine
  = Return tt
      (set_stdout ((">>> go version" +:+ LF) +:+ listing)
         (set_started [["go"; "version"]] machine)).
Proof.
  assert (DryRunFlag machine = false) as Hdry by reflexivity.
  assert (can_start env0 go_version (announced go_version machine) = true)
    as Hstart by (vm_compute; reflexivity).
  pose proof (MustRun_runs_command env0 go_version machine Hdry Hstart) as H.
  cbv zeta in H. rewrite H. vm_compute. reflexivity.
Defined.

Lemma MustRun_cannot_start_witness :
  (∃ e, MustRun env0 missing machine
        = Exit 1 (fatal e (announced missing machine))
        ∧ ∃ errno, e = PathError "fork/exec" "/usr/bin/dpkg-buildpackage"
                                 errno)
  ∧ MustRunCommand env0 EmptyString [] machine
    = Exit 1 (fatal (ErrorString "exec: no command")
                (set_stdout (">>> " +:+ LF) machine)).
Proof.
  split.
  - apply (MustRun_cannot_start env0 missing machine);
      vm_compute; reflexivity.
  - assert (MustRunCommand env0 EmptyString [] machine
            = MustRun env0
                (mkCmd EmptyString [EmptyString] Discard Discard None None)
                machine) as -> by reflexivity.
    destruct (MustRun_cannot_start env0
                (mkCmd EmptyString [EmptyString] Discard Discard None None)
                machine) as (e & H & He);
      [vm_compute; reflexivity..|].
    simpl in He. subst e. exact H.
Defined.

Lemma MustRunCommand_dry_run_witness :
  MustRunCommand env0 "gofmt" ["-l"; "."] dry
  = Return tt (set_stdout (">>> gofmt -l ." +:+ LF) dry).
Proof.
  exact (MustRunCommand_dry_run env0 "gofmt" ["-l"; "."] dry eq_refl).
Defined.

Lemma MustRunCommand_unknown_program_witness :
  MustRunCommand env0 "gofmt" ["-l"; "."] machine
  = Exit 1 (fatal (ExecError "gofmt" ErrNotFound)
              (set_stdout (">>> gofmt -l ." +:+ LF) machine)).
Proof.
  apply (MustRunCommand_unknown_program env0 "gofmt" ["-l"; "."] machine);
    vm_compute; reflexivity.
Defined.

Lemma VERSION_blank_witness :
  Spaces (" " +:+ LF) ∧ VERSION env0 blank = Return EmptyString blank.
Proof.
  assert (Spaces (" " +:+ LF)) as H.
  { apply (Spaces_cons " " LF).
    - unfold space_rune. vm_compute. tauto.
    - apply TrimFacts.Spaces_one. unfold space_rune. vm_compute. tauto. }
  split; [exact H|].
  apply (VERSION_blank env0 (" " +:+ LF) 0x1A4 blank);
    [vm_compute; reflexivity|reflexivity|exact H].
Defined.

Lemma RunGit_runs_git_witness :
  RunGit env0 ["rev-parse"; "HEAD"] with_git
  = Return "deadbeef"
      (set_started [[git; "rev-parse"; "HEAD"]] with_git).
Proof.
  assert (can_start env0 (git_cmd ["rev-parse"; "HEAD"]) with_git = true)
    as Hstart by (vm_compute; reflexivity).
  destruct (RunGit_runs_git env0 ["rev-parse"; "HEAD"] with_git Hstart)
    as [H _].
  rewrite H. vm_compute. reflexivity.
Defined.

Lemma Render_missing_template_witness :
  ∃ errno,
    Render env0 "build/rpm.spec" "out/rpm.spec" 0x1A4 tt machine
    = Panic (PathError "open" "build/rpm.spec" errno) machine.
Proof.
  apply (Render_missing_template env0 "build/rpm.spec" "out/rpm.spec" 0x1A4
           tt machine).
  vm_compute. reflexivity.
Defined.

Lemma Render_writes_output_witness :
  returns (Render env0 "build/deb.rules" "out/deb.rules" 0x1B6 tt machine)
  = true
  ∧ fs machine !! "out/deb.rules" = None
  ∧ fs (final (Render env0 "build/deb.rules" "out/deb.rules" 0x1B6 tt
                      machine))
      !! "out/deb.rules" = Some (File "override_dh_auto_build:" 0x1A4).
Proof.
  split; [vm_compute; reflexivity|].
  destruct (Render_writes_output env0 "build/deb.rules" "out/deb.rules" 0x1B6
              tt machine
              (final (Render env0 "build/deb.rules" "out/deb.rules" 0x1B6 tt
                             machine)))
    as (b & p & tpl & text & Hfile & Hparse & Hexec & Hfree & Hout & _);
    [vm_compute; reflexivity|].
  split; [exact Hfree|].
  vm_compute in Hfile. injection Hfile as <- <-.
  vm_compute in Hparse. injection Hparse as <-.
  vm_compute in Hexec. injection Hexec as <-.
  rewrite Hout. vm_compute. reflexivity.
Defined.

Lemma RenderString_writes_output_witness :
  returns (RenderString env0 "#!/usr/bin/make -f" "out/deb.rules" 0x1FF tt
                        machine) = true
  ∧ fs machine !! "out/deb.rules" = None
  ∧ fs (final (RenderString env0 "#!/usr/bin/make -f" "out/deb.rules"
                            0x1FF tt machine))
      !! "out/deb.rules" = Some (File "#!/usr/bin/make -f" 0x1ED).
Proof.
  split; [vm_compute; reflexivity|].
  destruct (RenderString_writes_output env0 "#!/usr/bin/make -f"
              "out/deb.rules" 0x1FF tt machine
              (final (RenderString env0 "#!/usr/bin/make -f" "out/deb.rules"
                                   0x1FF tt machine)))
    as (tpl & text & Hparse & Hexec & Hfree & Hout & _);
    [vm_compute; reflexivity|].
  split; [exact Hfree|].
  vm_compute in Hparse. injection Hparse as <-.
  vm_compute in Hexec. injection Hexec as <-.
  rewrite Hout. vm_compute. reflexivity.
Defined.

Lemma Render_not_repeatable_witness :
  returns (Render env0 "build/deb.rules" "out/deb.rules" 0x1A4 tt machine)
  = true
  ∧ returns (Render env0 "build/deb.rules" "out/deb.rules" 0x1A4 tt
               (final (Render env0 "build/deb.rules" "out/deb.rules" 0x1A4 tt
                              machine))) = false.
Proof.
  split; [vm_compute; reflexivity|].
  destruct (Render_not_repeatable env0 "build/deb.rules" "out/deb.rules" 0x1A4
              tt machine
              (final (Render env0 "build/deb.rules" "out/deb.rules" 0x1A4 tt
                             machine))
              "build/deb.rules" "#!/usr/bin/make -f" 0x1A4 tt)
    as [[H _] _]; [vm_compute; reflexivity|].
  exact H.
Defined.

Lemma RenderString_failed_execute_witness :
  RenderString env0 "version {{.Version}}" "out/version" 0x1A4 tt machine
  = Exit 1
      (fatal (ErrorString "can't evaluate field")
         (final (Template_Execute env0 "version {{.Version}}"
                   (Some 0%nat) tt
                   (final (os_OpenFile env0 "out/version" create_excl 0x1A4
                             (final (os_MkdirAll env0 "out" 0x1ED
                                                 machine)))))))
  ∧ fs machine !! "out/version" = None
  ∧ fs (final (RenderString env0 "version {{.Version}}" "out/version" 0x1A4
                            tt machine))
      !! "out/version" = Some (File "version " 0x1A4)
  ∧ fds (final (RenderString env0 "version {{.Version}}" "out/version" 0x1A4
                             tt machine))
      !! 0%nat = Some "out/version".
Proof.
  destruct (RenderString_failed_execute env0 "version {{.Version}}"
              "out/version" 0x1A4 tt machine
              (final (os_MkdirAll env0 "out" 0x1ED machine))
              (final (os_OpenFile env0 "out/version" create_excl 0x1A4
                        (final (os_MkdirAll env0 "out" 0x1ED machine))))
              (final (Template_Execute env0 "version {{.Version}}"
                        (Some 0%nat) tt
                        (final (os_OpenFile env0 "out/version" create_excl
                                  0x1A4
                                  (final (os_MkdirAll env0 "out" 0x1ED
                                                      machine))))))
              "version {{.Version}}" 0%nat
              (ErrorString "can't evaluate field"))
    as (H & Hfree & _); [vm_compute; reflexivity..|].
  split; [exact H|]. split; [exact Hfree|].
  split; vm_compute; reflexivity.
Defined.

Lemma CopyFile_onto_itself_witness :
  returns (CopyFile env0 "VERSION" "VERSION" 0x1A4 machine) = true
  ∧ fs machine !! "VERSION" = Some (File ("1.8.17" +:+ LF) 0x1A4)
  ∧ ∃ p, fs (final (CopyFile env0 "VERSION" "VERSION" 0x1A4 machine))
           !! "VERSION" = Some (File EmptyString p).
Proof.
  split; [vm_compute; reflexivity|]. split; [vm_compute; reflexivity|].
  apply (CopyFile_onto_itself env0 "VERSION" 0x1A4 machine).
  vm_compute. reflexivity.
Defined.

Lemma ExpandPackagesNoVendor_runs_go_list_witness :
  ExpandPackagesNoVendor env0 patterns machine
  = Return ["pkg/a"; "pkg/c"]
      (set_started [["/usr/lib/go/bin/go"; "list"; "fmt"; "pkg/..."]]
                   machine).
Proof.
  assert (∃ pkg, In pkg patterns ∧ Contains pkg "..." = true) as Hw.
  { exists "pkg/...". split; [simpl; auto|reflexivity]. }
  assert (String.eqb (filepath.Base (go_path env0)) (go_path env0) = false)
    as Hbase by (vm_compute; reflexivity).
  assert (can_start env0 (go_cmd env0 patterns) machine = true) as Hstart
    by (vm_compute; reflexivity).
  pose proof (ExpandPackagesNoVendor_runs_go_list env0 patterns machine
                Hw Hbase Hstart) as H.
  cbv zeta in H. rewrite H. vm_compute. reflexivity.
Defined.

Lemma ExpandPackagesNoVendor_cannot_start_witness :
  ∃ errno,
    ExpandPackagesNoVendor env0 patterns empty
    = Exit 1 (set_logged
                [Fatalf ("package listing failed: %v" +:+ LF +:+ "%s")
                        [VError (PathError "fork/exec" "/usr/lib/go/bin/go"
                                           errno);
                         VString EmptyString]] empty).
Proof.
  apply (ExpandPackagesNoVendor_cannot_start env0 patterns empty).
  - exists "pkg/...". split; [simpl; auto|reflexivity].
  - vm_compute. reflexivity.
  - vm_compute. reflexivity.
Defined.

Lemma ExpandPackagesNoVendor_packages_trimmed_witness :
  ExpandPackagesNoVendor
    (env ("  pkg/a " +:+ LF +:+ " pkg/vendor/b" +:+ LF +:+ "pkg/c  ") 0)
    patterns machine
  = Return ["pkg/a"; "pkg/c"]
      (set_started [["/usr/lib/go/bin/go"; "list"; "fmt"; "pkg/..."]]
                   machine)
  ∧ Forall (λ p, ∃ line,
                In line ["  pkg/a "; " pkg/vendor/b"; "pkg/c  "]
                ∧ Contains line "/vendor/" = false
                ∧ trimmed line p) ["pkg/a"; "pkg/c"].
Proof.
  destruct (ExpandPackagesNoVendor_packages_trimmed
              (env ("  pkg/a " +:+ LF +:+ " pkg/vendor/b" +:+ LF
                    +:+ "pkg/c  ") 0)
              patterns
              ("  pkg/a " +:+ LF +:+ " pkg/vendor/b" +:+ LF +:+ "pkg/c  ")
              machine
              (set_started [["/usr/lib/go/bin/go"; "list"; "fmt"; "pkg/..."]]
                           machine))
    as (packages & Hrun & Hall).
  - exists "pkg/...". split; [simpl; auto|reflexivity].
  - vm_compute. reflexivity.
  - assert (ExpandPackagesNoVendor
              (env ("  pkg/a " +:+ LF +:+ " pkg/vendor/b" +:+ LF
                    +:+ "pkg/c  ") 0) patterns machine
            = Return ["pkg/a"; "pkg/c"]
                (set_started
                   [["/usr/lib/go/bin/go"; "list"; "fmt"; "pkg/..."]]
                   machine)) as Hval by (vm_compute; reflexivity).
    rewrite Hval in Hrun. injection Hrun as <-.
    split; [reflexivity|].
    assert (Split ("  pkg/a " +:+ LF +:+ " pkg/vendor/b" +:+ LF
                   +:+ "pkg/c  ") LF
            = ["  pkg/a "; " pkg/vendor/b"; "pkg/c  "]) as Hsplit
      by (vm_compute; reflexivity).
    rewrite Hsplit in Hall. exact Hall.
Defined.

Lemma ExpandPackagesNoVendor_lossless_witness :
  ∃ packages,
    ExpandPackagesNoVendor (env ("pkg/a" +:+ LF +:+ "pkg/c") 0) patterns
                           machine
    = Return packages
        (final (go_list (env ("pkg/a" +:+ LF +:+ "pkg/c") 0) patterns
                        machine))
    ∧ Join packages LF = "pkg/a" +:+ LF +:+ "pkg/c".
Proof.
  apply (ExpandPackagesNoVendor_lossless (env ("pkg/a" +:+ LF +:+ "pkg/c") 0)
           patterns ("pkg/a" +:+ LF +:+ "pkg/c") machine
           (final (go_list (env ("pkg/a" +:+ LF +:+ "pkg/c") 0) patterns
                           machine))).
  - exists "pkg/...". split; [simpl; auto|reflexivity].
  - vm_compute. reflexivity.
  - vm_compute. reflexivity.
  - assert (Split ("pkg/a" +:+ LF +:+ "pkg/c") LF = ["pkg/a"; "pkg/c"]) as ->
      by (vm_compute; reflexivity).
    repeat (constructor; [vm_compute; reflexivity|]). constructor.
Defined.

End Witnesses.
